(** * minfx multi-backend replication engine: a shallow embedding

    Source files embedded here:
    - [minfx/neptune_v2/internal/backends/multi_backend.py]
      (health state machine, dispatcher);
    - [minfx/neptune_v2/internal/threading/daemon.py]
      (daemon states, connection-retry wrapper);
    - [minfx/neptune_v2/internal/operation_processors/async_operation_processor.py]
      (enqueue / wait / close, consumer's [process_batch]);
    - [minfx/neptune_v2/internal/state.py] ([OperationAcceptance]).

    Python [int] is [Z]; lists are [list]; an in-place update of a list
    slot is stdpp's [<[pos:=x]>].  Calls that may raise return a
    [Result]; calls into collaborators (backends, other threads, the
    clock) are answered by explicit oracles passed as arguments. *)

From Stdlib Require Import ZArith Lia List String.
From stdpp Require Import base tactics option list pretty.

Open Scope string_scope.
Open Scope Z_scope.
Open Scope list_scope.

(** ** Exceptions and results *)

(** The exception classes the core raises or forwards.  [BackendError]
    carries the original index and the cause; the cause is an exception,
    except in [create_run]'s secondary path where the code stores the
    formatted text ["<type>: <message>"]. *)
#[warnings="-register-all"]
Inductive Exception : Type :=
| GenericError (class_name message : string)
| NeptuneConnectionLostException (cause_class : string)
| NeptuneSynchronizationAlreadyStoppedException
| NeptuneMultiBackendClosedError (message : string)
| BackendError (backend_index : Z) (cause : Exception + string)
| AllBackendsFailedError (errors : list Exception).

Inductive Result (A : Type) : Type :=
| Ok (a : A)
| Raise (e : Exception).
Arguments Ok {A} a.
Arguments Raise {A} e.

Definition is_ok {A} (r : Result A) : bool :=
  match r with Ok _ => true | Raise _ => false end.

Definition is_Some_b {A} (o : option A) : bool :=
  match o with Some _ => true | None => false end.

(** How a modelled call that depends on other threads ends:
    [Returned a]: it returned [a]; [Raised e]: [e] propagated;
    [Pending]: the scripted answers of the other threads ended while
    the call was still looping or blocked. *)
Inductive Run (A : Type) : Type :=
| Returned (a : A)
| Raised (e : Exception)
| Pending.
Arguments Returned {A} a.
Arguments Raised {A} e.
Arguments Pending {A}.

(** [type(e).__name__] *)
Definition type_name (e : Exception) : string :=
  match e with
  | GenericError class_name _ => class_name
  | NeptuneConnectionLostException _ => "NeptuneConnectionLostException"
  | NeptuneSynchronizationAlreadyStoppedException =>
      "NeptuneSynchronizationAlreadyStoppedException"
  | NeptuneMultiBackendClosedError _ => "NeptuneMultiBackendClosedError"
  | BackendError _ _ => "BackendError"
  | AllBackendsFailedError _ => "AllBackendsFailedError"
  end.

(** [str(e)] for the classes whose text is in the sources; the text of
    the others is defined outside them and left empty. *)
Definition str (e : Exception) : string :=
  match e with
  | GenericError _ message => message
  | NeptuneMultiBackendClosedError message => message
  | _ => EmptyString
  end.

(** ** Backend health (multi_backend.py, lines 58-166) *)

Module Health.
Section WithTime.

(** Values of [time.time()]: a float the dispatcher only stores. *)
Context {Time : Type}.

Definition FAILURE_THRESHOLD : Z := 3.

Inductive BackendHealth : Type :=
| Healthy (last_success_time : Time)
| Failing (consecutive_failures : Z) (last_error : Exception)
          (last_success_time : Time)
| Degraded (consecutive_failures : Z) (last_error : Exception).

Definition is_routable (health : BackendHealth) : bool :=
  match health with
  | Healthy _ | Failing _ _ _ => true
  | Degraded _ _ => false
  end.

(** [now] is the reading of [time.time()] inside the function. *)
Definition compute_success_health (now : Time) : BackendHealth :=
  Healthy now.

(** The last [return] of the source, after the three [isinstance]
    tests, is unreachable on a value of the union type and has no
    counterpart here. *)
Definition compute_failure_health
    (current_health : BackendHealth) (error : Exception) : BackendHealth :=
  match current_health with
  | Healthy t => Failing 1 error t
  | Failing n _ t =>
      if n <? FAILURE_THRESHOLD - 1
      then Failing (n + 1) error t
      else Degraded (n + 1) error
  | Degraded n _ => Degraded (n + 1) error
  end.

(** One outcome of an operation on a backend, as the dispatcher sees it. *)
Inductive Outcome : Type :=
| Success (now : Time)
| Failure (error : Exception).

Definition transition (h : BackendHealth) (o : Outcome) : BackendHealth :=
  match o with
  | Success now => compute_success_health now
  | Failure error => compute_failure_health h error
  end.

Definition run (h : BackendHealth) (os : list Outcome) : BackendHealth :=
  fold_left transition os h.

(** The data-model invariant of the three variants. *)
Definition health_inv (h : BackendHealth) : Prop :=
  match h with
  | Healthy _ => True
  | Failing n _ _ => 1 <= n <= 2
  | Degraded n _ => 3 <= n
  end.

(** The failure count a state stands for ([Healthy] carries none). *)
Definition failure_count (h : BackendHealth) : Z :=
  match h with
  | Healthy _ => 0
  | Failing n _ _ => n
  | Degraded n _ => n
  end.

Inductive Variant : Type := VHealthy | VFailing | VDegraded.

Definition variant (h : BackendHealth) : Variant :=
  match h with
  | Healthy _ => VHealthy
  | Failing _ _ _ => VFailing
  | Degraded _ _ => VDegraded
  end.

(** Number of failures since the last success, counted from the end of
    the outcome sequence. *)
Fixpoint trailing_failures_rev (rev_os : list Outcome) : Z :=
  match rev_os with
  | Failure _ :: rest => 1 + trailing_failures_rev rest
  | _ => 0
  end.

Definition trailing_failures (os : list Outcome) : Z :=
  trailing_failures_rev (rev os).

(** [h] is well formed and stands for [k] consecutive failures. *)
Definition counts (h : BackendHealth) (k : Z) : Prop :=
  health_inv h /\ failure_count h = k.

End WithTime.
Arguments BackendHealth : clear implicits.
Arguments Outcome : clear implicits.
End Health.

(** ** The dispatcher (multi_backend.py, class [MultiBackend]) *)

Module Dispatcher.
Import Health.

Definition MAX_RETRY_TIMEOUT_SECONDS : Z := 30.
Definition MAX_PARALLEL_WORKERS : Z := 10.

(** A backend handle.  What a backend answers to a call is not part of
    the handle: every dispatcher operation takes the answers of the
    backends as an oracle argument. *)
Record NeptuneBackend : Type := { get_display_address : string }.

(** The fields of [ApiExperiment] the dispatcher reads. *)
Record ApiExperiment : Type := { id : string; sys_id : string }.

(** Calls the dispatcher makes on the wrapped backends, in the order
    they are made. *)
Inductive Call : Type :=
| CallExecuteOperations (b : NeptuneBackend)
| CallCreateRun (b : NeptuneBackend) (_external_id _external_sys_id : option string)
| CallCreateModel (b : NeptuneBackend)
| CallCreateModelVersion (b : NeptuneBackend)
| CallRead (b : NeptuneBackend)
| CallGetRunUrl (b : NeptuneBackend)
| CallClose (b : NeptuneBackend).

Section WithTime.
Context {Time : Type}.

Record BackendState : Type := {
  backend : NeptuneBackend;
  index : Z;
  health : BackendHealth Time;
}.

(** [_shutdown_event] is the [threading.Event]; [_executor_down] says
    that [ThreadPoolExecutor.shutdown] has run (a later [submit] raises
    [RuntimeError]); [_timer_cancelled] that the health-check timer was
    cancelled; [calls] is the log of backend calls made so far. *)
Record MultiBackend : Type := {
  _backend_states : list BackendState;
  _shutdown_event : bool;
  _executor_down : bool;
  _timer_cancelled : bool;
  calls : list Call;
}.

Definition set_states (f : list BackendState -> list BackendState)
    (mb : MultiBackend) : MultiBackend :=
  {| _backend_states := f mb.(_backend_states);
     _shutdown_event := mb.(_shutdown_event);
     _executor_down := mb.(_executor_down);
     _timer_cancelled := mb.(_timer_cancelled);
     calls := mb.(calls) |}.

Definition record_call (c : Call) (mb : MultiBackend) : MultiBackend :=
  {| _backend_states := mb.(_backend_states);
     _shutdown_event := mb.(_shutdown_event);
     _executor_down := mb.(_executor_down);
     _timer_cancelled := mb.(_timer_cancelled);
     calls := mb.(calls) ++ [c] |}.

(** [MultiBackend.__init__]: sequential indices, every backend
    [Healthy] as of [now] (the source reads the clock once per state). *)
Definition init (now : Time) (backends : list NeptuneBackend) : MultiBackend :=
  {| _backend_states :=
       imap (fun i b => {| backend := b; index := Z.of_nat i;
                           health := Healthy now |}) backends;
     _shutdown_event := false;
     _executor_down := false;
     _timer_cancelled := false;
     calls := [] |}.


(** *** The dispatcher monad: state and exceptions *)

Definition Disp (A : Type) : Type := MultiBackend -> Result A * MultiBackend.

Definition ret {A} (a : A) : Disp A := fun mb => (Ok a, mb).
Definition raise {A} (e : Exception) : Disp A := fun mb => (Raise e, mb).
Definition bind {A B} (c : Disp A) (k : A -> Disp B) : Disp B :=
  fun mb => match c mb with
            | (Ok a, mb') => k a mb'
            | (Raise e, mb') => (Raise e, mb')
            end.
Definition get : Disp MultiBackend := fun mb => (Ok mb, mb).
Definition modify (f : MultiBackend -> MultiBackend) : Disp unit :=
  fun mb => (Ok tt, f mb).
(** [try: c except Exception as e: h e] *)
Definition try_except {A} (c : Disp A) (h : Exception -> Disp A) : Disp A :=
  fun mb => match c mb with
            | (Ok a, mb') => (Ok a, mb')
            | (Raise e, mb') => h e mb'
            end.
(** A call on a backend: logged, answered by the oracle. *)
Definition call_backend {A} (c : Call) (answer : Result A) : Disp A :=
  fun mb => (answer, record_call c mb).

#[export] Instance disp_ret : MRet Disp := @ret.
#[export] Instance disp_bind : MBind Disp := fun A B k c => bind c k.

Definition closed_error : Exception :=
  NeptuneMultiBackendClosedError "MultiBackend has been closed".

Definition _check_not_closed : Disp unit :=
  mb ← get;
  if mb.(_shutdown_event) then raise closed_error else ret tt.

Definition _is_single_backend (mb : MultiBackend) : bool :=
  (length mb.(_backend_states) =? 1)%nat.

(** [raise errors[0].cause from None]: raising a [str] is a
    [TypeError]; an entry that is no [BackendError] has no [cause]. *)
Definition raise_cause (e : Exception) : Exception :=
  match e with
  | BackendError _ (inl cause) => cause
  | BackendError _ (inr _) =>
      GenericError "TypeError" "exceptions must derive from BaseException"
  | _ => GenericError "AttributeError" "cause"
  end.

Definition _raise_all_failed {A} (errors : list Exception) : Disp A :=
  mb ← get;
  match errors with
  | [e] => if _is_single_backend mb then raise (raise_cause e)
           else raise (AllBackendsFailedError errors)
  | _ => raise (AllBackendsFailedError errors)
  end.

Fixpoint _find_state_position_from (pos : nat) (states : list BackendState)
    (idx : Z) : option nat :=
  match states with
  | [] => None
  | state :: rest =>
      if state.(index) =? idx then Some pos
      else _find_state_position_from (S pos) rest idx
  end.

Definition _find_state_position (mb : MultiBackend) (idx : Z) : option nat :=
  _find_state_position_from 0 mb.(_backend_states) idx.

Definition with_health (h : BackendHealth Time) (s : BackendState) : BackendState :=
  {| backend := s.(backend); index := s.(index); health := h |}.

(** The read-modify-write of one slot under the dispatcher lock. *)
Definition update_health (idx : Z)
    (f : BackendHealth Time -> BackendHealth Time) (mb : MultiBackend)
  : MultiBackend :=
  match _find_state_position mb idx with
  | None => mb
  | Some pos =>
      match mb.(_backend_states) !! pos with
      | None => mb
      | Some current =>
          set_states (fun l => <[pos := with_health (f current.(health)) current]> l) mb
      end
  end.

Definition _transition_on_success (idx : Z) (now : Time) : Disp unit :=
  modify (update_health idx (fun _ => compute_success_health now)).

Definition _transition_on_failure (idx : Z) (error : Exception) : Disp unit :=
  modify (update_health idx (fun old => compute_failure_health old error)).

Definition routable_states (states : list BackendState) : list BackendState :=
  List.filter (fun s => is_routable s.(health)) states.

Definition _get_routable_backends (mb : MultiBackend) : list BackendState :=
  match routable_states mb.(_backend_states) with
  | [] => mb.(_backend_states)
  | routable => routable
  end.

Definition mark_backend_disconnected (idx : Z) (error : option Exception)
  : Disp unit :=
  let error := match error with
               | None => GenericError "Exception" "Connection lost"
               | Some e => e
               end in
  modify (update_health idx (fun h =>
    match h with
    | Healthy _ => Degraded FAILURE_THRESHOLD error
    | _ => h
    end)).

(** *** Read operations

    [get_project], [get_attributes], [download_file], ... all have the
    same body: check, take the routable backends, try them in order.
    [answer b] is what backend [b] does when called; [clock idx] is the
    reading of [time.time()] when the transition of backend [idx] is
    computed. *)

Fixpoint try_backends {A} (answer : NeptuneBackend -> Result A)
    (clock : Z -> Time) (backends_to_try : list BackendState)
    (errors : list Exception) : Disp A :=
  match backends_to_try with
  | [] => _raise_all_failed errors
  | state :: rest =>
      try_except
        (result ← call_backend (CallRead state.(backend)) (answer state.(backend));
         _ ← _transition_on_success state.(index) (clock state.(index));
         mret result)
        (fun e =>
           _ ← _transition_on_failure state.(index) e;
           try_backends answer clock rest
             (errors ++ [BackendError state.(index) (inl e)]))
  end.

Definition read_operation {A} (answer : NeptuneBackend -> Result A)
    (clock : Z -> Time) : Disp A :=
  _ ← _check_not_closed;
  mb ← get;
  try_backends answer clock (_get_routable_backends mb) [].

(** The methods with this body; their arguments only travel to the
    backend and are part of [answer]. *)
Definition get_project {A} := @read_operation A.
Definition get_available_projects {A} := @read_operation A.
Definition get_available_workspaces {A} := @read_operation A.
Definition get_metadata_container {A} := @read_operation A.
Definition create_checkpoint {A} := @read_operation A.
Definition get_attributes {A} := @read_operation A.
Definition download_file {A} := @read_operation A.
Definition search_leaderboard_entries {A} := @read_operation A.

(** *** Parallel fan-out

    A worker returns the triple [(index, result, error)].  The workers
    of one fan-out run on the thread pool; [as_completed] is the order
    in which they finish (a permutation of the submitted list), and
    each worker's health transition is atomic under the lock, so the
    workers are run here one after the other in that order. *)

Definition WorkerResult (A E : Type) : Type := Z * option A * option E.

Definition worker {A} (c : NeptuneBackend -> Call)
    (answer : NeptuneBackend -> Result A) (clock : Z -> Time)
    (state : BackendState) : Disp (WorkerResult A Exception) :=
  try_except
    (result ← call_backend (c state.(backend)) (answer state.(backend));
     _ ← _transition_on_success state.(index) (clock state.(index));
     mret (state.(index), Some result, None))
    (fun e =>
       _ ← _transition_on_failure state.(index) e;
       mret (state.(index), None, Some e)).

Fixpoint run_workers {R} (w : BackendState -> Disp R)
    (scheduled : list BackendState) : Disp (list R) :=
  match scheduled with
  | [] => mret []
  | state :: rest =>
      r ← w state;
      rs ← run_workers w rest;
      mret (r :: rs)
  end.

(** [{self._executor.submit(f, state): state for state in states}]:
    [submit] raises [RuntimeError] once the executor is shut down, and
    the dispatcher turns that into the closed error. *)
Definition submit_all (states : list BackendState) : Disp unit :=
  mb ← get;
  match states with
  | [] => mret tt
  | _ :: _ => if mb.(_executor_down) then raise closed_error else mret tt
  end.

(** [as_completed(futures, timeout=...)] yields the futures finished
    before the deadline and then raises [TimeoutError], which the
    callers swallow: [deadline = Some n] keeps the first [n]. *)
Definition within_deadline {R} (deadline : option nat) (finished : list R)
  : list R :=
  match deadline with
  | None => finished
  | Some n => take n finished
  end.

(** The loop over finished futures of [execute_operations]: an
    exception object is truthy. *)
Fixpoint collect {A} (finished : list (WorkerResult A Exception))
    (backend_errors : list Exception) (results : list A)
  : list Exception * list A :=
  match finished with
  | [] => (backend_errors, results)
  | (idx, result, error) :: rest =>
      match error, result with
      | Some e, _ => collect rest (backend_errors ++ [BackendError idx (inl e)]) results
      | None, Some r => collect rest backend_errors (results ++ [r])
      | None, None => collect rest backend_errors results
      end
  end.

(** Python's [max] over a non-empty sequence. *)
Definition py_max (first : Z) (others : list Z) : Z :=
  fold_left Z.max others first.

Definition execute_operations
    (answer : NeptuneBackend -> Result (Z * list Exception))
    (clock : Z -> Time)
    (as_completed : list BackendState -> list BackendState)
  : Disp (Z * list Exception) :=
  _ ← _check_not_closed;
  mb ← get;
  let backends_to_use := _get_routable_backends mb in
  if mb.(_shutdown_event) then raise closed_error else
  _ ← submit_all backends_to_use;
  finished ← run_workers (worker CallExecuteOperations answer clock)
                         (as_completed backends_to_use);
  let '(backend_errors, results) := collect finished [] [] in
  match results with
  | [] => _raise_all_failed backend_errors
  | r :: rs =>
      let max_processed := py_max (fst r) (map fst rs) in
      mret (max_processed, backend_errors)
  end.

(** *** create_run: primary first, then the secondaries *)

Definition truthy (s : string) : bool := negb (String.eqb s EmptyString).

Definition create_on_secondary
    (answer : NeptuneBackend -> option string -> option string -> Result ApiExperiment)
    (clock : Z -> Time) (primary_result : ApiExperiment)
    (state : BackendState) : Disp (WorkerResult ApiExperiment string) :=
  let ext_id := Some primary_result.(id) in
  let ext_sys_id := Some primary_result.(sys_id) in
  try_except
    (result ← call_backend (CallCreateRun state.(backend) ext_id ext_sys_id)
                           (answer state.(backend) ext_id ext_sys_id);
     _ ← _transition_on_success state.(index) (clock state.(index));
     mret (state.(index), Some result, None))
    (fun e =>
       _ ← _transition_on_failure state.(index) e;
       mret (state.(index), None, Some (type_name e ++ ": " ++ str e)%string)).

Fixpoint collect_secondary (finished : list (WorkerResult ApiExperiment string))
    (errors : list Exception) : list Exception :=
  match finished with
  | [] => errors
  | (idx, _, error) :: rest =>
      match error with
      | Some text =>
          if truthy text
          then collect_secondary rest (errors ++ [BackendError idx (inr text)])
          else collect_secondary rest errors
      | None => collect_secondary rest errors
      end
  end.

(** The value of [errors] at the end of [create_run] only feeds the
    summary log line; it is computed by [collect_secondary] and the
    returned value does not depend on it. *)
Definition create_run
    (answer : NeptuneBackend -> option string -> option string -> Result ApiExperiment)
    (clock : Z -> Time)
    (as_completed : list BackendState -> list BackendState)
    (deadline : option nat)
    (_external_id _external_sys_id : option string) : Disp ApiExperiment :=
  _ ← _check_not_closed;
  mb ← get;
  match mb.(_backend_states) with
  | [] => raise (AllBackendsFailedError [])
  | primary_state :: remaining_backends =>
      if mb.(_shutdown_event) then raise closed_error else
      primary_result ←
        try_except
          (r ← call_backend
                 (CallCreateRun primary_state.(backend) _external_id _external_sys_id)
                 (answer primary_state.(backend) _external_id _external_sys_id);
           _ ← _transition_on_success primary_state.(index)
                 (clock primary_state.(index));
           mret r)
          (fun e =>
             _ ← _transition_on_failure primary_state.(index) e;
             _raise_all_failed [BackendError primary_state.(index) (inl e)]);
      match remaining_backends with
      | [] => mret primary_result
      | _ :: _ =>
          _ ← submit_all remaining_backends;
          finished ← run_workers (create_on_secondary answer clock primary_result)
                                 (as_completed remaining_backends);
          let errors := collect_secondary (within_deadline deadline finished) [] in
          mret primary_result
      end
  end.

(** *** create_model / create_model_version *)

(** [results[idx] = result] on a dict kept as an association list. *)
Fixpoint dict_set {V} (d : list (Z * V)) (k : Z) (v : V) : list (Z * V) :=
  match d with
  | [] => [(k, v)]
  | (k', v') :: rest =>
      if k' =? k then (k, v) :: rest else (k', v') :: dict_set rest k v
  end.

Fixpoint collect_dict {A} (finished : list (WorkerResult A Exception))
    (errors : list Exception) (results : list (Z * A))
  : list Exception * list (Z * A) :=
  match finished with
  | [] => (errors, results)
  | (idx, result, error) :: rest =>
      match error, result with
      | Some e, _ => collect_dict rest (errors ++ [BackendError idx (inl e)]) results
      | None, Some r => collect_dict rest errors (dict_set results idx r)
      | None, None => collect_dict rest errors results
      end
  end.

(** [results[min(results.keys())]] on a non-empty dict. *)
Fixpoint lowest {V} (best : Z * V) (others : list (Z * V)) : V :=
  match others with
  | [] => snd best
  | kv :: rest => lowest (if fst kv <? fst best then kv else best) rest
  end.

Definition create_on_all (c : NeptuneBackend -> Call)
    (answer : NeptuneBackend -> Result ApiExperiment)
    (clock : Z -> Time)
    (as_completed : list BackendState -> list BackendState)
    (deadline : option nat) : Disp ApiExperiment :=
  _ ← _check_not_closed;
  mb ← get;
  let backends_snapshot := mb.(_backend_states) in
  if mb.(_shutdown_event) then raise closed_error else
  _ ← submit_all backends_snapshot;
  finished ← run_workers (worker c answer clock) (as_completed backends_snapshot);
  let '(errors, results) :=
    collect_dict (within_deadline deadline finished) [] [] in
  match results with
  | [] => _raise_all_failed errors
  | kv :: rest => mret (lowest kv rest)
  end.


(** *** URL-producing reads: no closed check, primary backend only *)

Definition get_run_url (answer : NeptuneBackend -> Result string) : Disp string :=
  mb ← get;
  match mb.(_backend_states) with
  | [] => raise (GenericError "IndexError" "list index out of range")
  | state :: _ => call_backend (CallGetRunUrl state.(backend)) (answer state.(backend))
  end.

Fixpoint collect_urls (answer : NeptuneBackend -> Result string)
    (states : list BackendState) (urls : list string) : Disp (list string) :=
  match states with
  | [] => mret urls
  | state :: rest =>
      urls' ← try_except
                (url ← call_backend (CallGetRunUrl state.(backend))
                                    (answer state.(backend));
                 mret (urls ++ [url])%list)
                (fun _ => mret urls);
      collect_urls answer rest urls'
  end.

Definition get_all_run_urls (answer : NeptuneBackend -> Result string)
  : Disp (list string) :=
  mb ← get;
  collect_urls answer mb.(_backend_states) [].

(** *** close *)

Definition shut_down (mb : MultiBackend) : MultiBackend :=
  {| _backend_states := mb.(_backend_states);
     _shutdown_event := true;
     _executor_down := true;
     _timer_cancelled := true;
     calls := mb.(calls) |}.

Fixpoint close_each (answer : NeptuneBackend -> Result unit)
    (states : list BackendState) : Disp unit :=
  match states with
  | [] => mret tt
  | state :: rest =>
      _ ← try_except
            (call_backend (CallClose state.(backend)) (answer state.(backend)))
            (fun _ => mret tt);
      close_each answer rest
  end.

(** Setting the event, cancelling the timer and shutting the executor
    down are the three steps of [shut_down], in the source's order. *)
Definition close (answer : NeptuneBackend -> Result unit) : Disp unit :=
  _ ← modify shut_down;
  mb ← get;
  close_each answer mb.(_backend_states).

(** *** Vocabulary of the statements *)

(** The dispatcher is open: [close] has not run. *)
Definition is_open (mb : MultiBackend) : Prop :=
  mb.(_shutdown_event) = false /\ mb.(_executor_down) = false.

(** What health transitions and backend calls leave unchanged. *)
Definition same_shape (mb mb' : MultiBackend) : Prop :=
  length mb'.(_backend_states) = length mb.(_backend_states) /\
  mb'.(_shutdown_event) = mb.(_shutdown_event) /\
  mb'.(_executor_down) = mb.(_executor_down).

(** The backend of state [s] raises when called. *)
Definition fails {A} (answer : NeptuneBackend -> Result A) (s : BackendState)
  : Prop :=
  is_ok (answer s.(backend)) = false.

(** The entry [(original_index, cause)] of a backend whose call raised. *)
Definition failure_entry {A} (answer : NeptuneBackend -> Result A)
    (s : BackendState) : list Exception :=
  match answer s.(backend) with
  | Raise e => [BackendError s.(index) (inl e)]
  | Ok _ => []
  end.

Definition failures {A} (answer : NeptuneBackend -> Result A)
    (l : list BackendState) : list Exception :=
  flat_map (failure_entry answer) l.

Definition success_entry {A} (answer : NeptuneBackend -> Result A)
    (s : BackendState) : list A :=
  match answer s.(backend) with
  | Ok r => [r]
  | Raise _ => []
  end.

Definition successes {A} (answer : NeptuneBackend -> Result A)
    (l : list BackendState) : list A :=
  flat_map (success_entry answer) l.

Definition worker_result {A} (answer : NeptuneBackend -> Result A)
    (s : BackendState) : WorkerResult A Exception :=
  match answer s.(backend) with
  | Ok r => (s.(index), Some r, None)
  | Raise e => (s.(index), None, Some e)
  end.

(** The exception [_raise_all_failed] raises, given whether the
    dispatcher wraps a single backend. *)
Definition all_failed (single : bool) (errors : list Exception) : Exception :=
  match errors with
  | [e] => if single then raise_cause e else AllBackendsFailedError errors
  | _ => AllBackendsFailedError errors
  end.

(** A worker that always returns [r s], makes the one call [c s] and
    keeps the shape of the dispatcher. *)
Definition worker_spec {R} (w : BackendState -> Disp R)
    (r : BackendState -> R) (c : BackendState -> Call) : Prop :=
  forall s mb, exists mb',
    w s mb = (Ok (r s), mb') /\ same_shape mb mb' /\
    mb'.(calls) = mb.(calls) ++ [c s].

End WithTime.
Arguments BackendState : clear implicits.
Arguments MultiBackend : clear implicits.
End Dispatcher.

(** ** Log records

    [logger.info(msg, *args)]: the format string and its arguments, as
    the logging API receives them.  [warn_once] records have their own
    level. *)

Inductive Level : Type := DEBUG | INFO | WARNING | ERROR | WARN_ONCE.

Inductive LogArg : Type :=
| ArgStr (s : string)
| ArgInt (n : Z).

Record LogRecord : Type := {
  level : Level;
  msg : string;
  args : list LogArg;
}.

(** ** The worker thread (threading/daemon.py) *)

Module Daemon.

Inductive DaemonState : Type :=
| INIT | WORKING | PAUSING | PAUSED | INTERRUPTED | STOPPED.

Definition is_running (s : DaemonState) : bool :=
  match s with
  | WORKING | PAUSING | PAUSED => true
  | _ => false
  end.

Definition is_terminal (s : DaemonState) : bool :=
  match s with
  | INTERRUPTED | STOPPED => true
  | _ => false
  end.

(** The writes to [_state] in the class, one constructor per place:
    [interrupt], [pause], [resume], the three writes of [run] (start,
    the PAUSING observation in the loop, the [finally] block). *)
Inductive Action : Type :=
| DoInterrupt | DoPause | DoResume | RunStart | RunPaused | RunFinally.

Definition apply (a : Action) (s : DaemonState) : DaemonState :=
  match a with
  | DoInterrupt => INTERRUPTED
  | DoPause =>
      match s with
      | PAUSED => s
      | _ => if is_terminal s then s else PAUSING
      end
  | DoResume => if is_terminal s then s else WORKING
  | RunStart => if is_terminal s then s else WORKING
  | RunPaused => match s with PAUSING => PAUSED | _ => s end
  | RunFinally => STOPPED
  end.

Definition after (actions : list Action) (s : DaemonState) : DaemonState :=
  fold_left (fun s a => apply a s) actions s.

(** The fields of a daemon that the retry wrapper touches.
    [_backend_index] stands for [self_._processor._backend_index]
    ([None] also when the attribute is absent); [log] collects the log
    records and [waits] the timeouts of the [wait_for] calls. *)
Record Daemon : Type := {
  _state : DaemonState;
  last_backoff_time : Z;
  _backend_index : option Z;
  log : list LogRecord;
  waits : list Z;
}.

Definition new (backend_index : option Z) : Daemon :=
  {| _state := INIT; last_backoff_time := 0;
     _backend_index := backend_index; log := []; waits := [] |}.

Definition set_state (s : DaemonState) (d : Daemon) : Daemon :=
  {| _state := s; last_backoff_time := d.(last_backoff_time);
     _backend_index := d.(_backend_index); log := d.(log); waits := d.(waits) |}.

Definition set_backoff (b : Z) (d : Daemon) : Daemon :=
  {| _state := d.(_state); last_backoff_time := b;
     _backend_index := d.(_backend_index); log := d.(log); waits := d.(waits) |}.

Definition emit (r : LogRecord) (d : Daemon) : Daemon :=
  {| _state := d.(_state); last_backoff_time := d.(last_backoff_time);
     _backend_index := d.(_backend_index); log := d.(log) ++ [r];
     waits := d.(waits) |}.

Definition record_wait (timeout : Z) (d : Daemon) : Daemon :=
  {| _state := d.(_state); last_backoff_time := d.(last_backoff_time);
     _backend_index := d.(_backend_index); log := d.(log);
     waits := d.(waits) ++ [timeout] |}.

Definition _is_interrupted (d : Daemon) : bool := is_terminal d.(_state).

(** What another thread does to the daemon while this one is busy. *)
Definition disturbed (interrupt : bool) (d : Daemon) : Daemon :=
  if interrupt then set_state (apply DoInterrupt d.(_state)) d else d.

Module ConnectionRetryWrapper.

Definition INITIAL_RETRY_BACKOFF : Z := 2.
Definition MAX_RETRY_BACKOFF : Z := 120.

(** The wrapped function is external: each call of [func] is one
    [Round] of the script, giving what the call does and whether
    [interrupt()] arrives during the call or during the wait after it. *)
Record Round (R : Type) : Type := {
  attempt : Result R;
  interrupted_in_call : bool;
  interrupted_in_wait : bool;
}.
Arguments attempt {R} _.
Arguments interrupted_in_call {R} _.
Arguments interrupted_in_wait {R} _.

(** The wrapper returns [Some r] when [func] returned [r] and [None]
    when its loop ended on interruption. *)

Definition backend_prefix (d : Daemon) : string :=
  match d.(_backend_index) with
  | Some idx => ("[backend " ++ pretty idx ++ "] ")%string
  | None => EmptyString
  end.

Definition restored_record (d : Daemon) : LogRecord :=
  {| level := INFO; msg := "%sCommunication restored!";
     args := [ArgStr (backend_prefix d)] |}.

Definition failed_record (d : Daemon) (error_name : string) (retry_in : Z)
  : LogRecord :=
  {| level := WARNING; msg := "%sConnection failed: %s. Retrying in %ss...";
     args := [ArgStr (backend_prefix d); ArgStr error_name; ArgInt retry_in] |}.

Definition rate_limit_record : LogRecord :=
  {| level := WARN_ONCE;
     msg := ("You're hitting the default logging-rate limit for your workspace."
             ++ " See how to optimize the logging calls to reduce requests:"
             ++ " https://docs.neptune.ai/help/reducing_requests/. "
             ++ String (Ascii.ascii_of_nat 10) " To increase the limits for your workspace, contact sales@neptune.ai.")%string;
     args := [] |}.

Definition fatal_record (kill_message : string) : LogRecord :=
  {| level := ERROR;
     msg := "Unexpected error occurred in Neptune background thread: %s";
     args := [ArgStr kill_message] |}.

(** The [try] branch after [func] returned. *)
Definition on_success (d : Daemon) : Daemon :=
  if 0 <? d.(last_backoff_time)
  then emit (restored_record d) (set_backoff 0 d)
  else d.

(** The [except NeptuneConnectionLostException] branch up to the wait. *)
Definition on_connection_lost (error_name : string) (d : Daemon) : Daemon :=
  if d.(last_backoff_time) =? 0
  then
    let d := if String.eqb error_name "HTTPTooManyRequests"
             then emit rate_limit_record d
             else emit (failed_record d error_name INITIAL_RETRY_BACKOFF) d in
    set_backoff INITIAL_RETRY_BACKOFF d
  else
    let d := set_backoff
               (Z.min (d.(last_backoff_time) * 2) MAX_RETRY_BACKOFF) d in
    if _is_interrupted d then d
    else emit (failed_record d error_name d.(last_backoff_time)) d.

(** [wait_for(lambda: self_._is_interrupted(), timeout=backoff)]. *)
Definition backoff_wait (interrupt : bool) (d : Daemon) : Daemon :=
  disturbed interrupt (record_wait d.(last_backoff_time) d).

Fixpoint wrapper {R} (kill_message : string) (script : list (Round R))
    (d : Daemon) : Run (option R) * Daemon :=
  if _is_interrupted d then (Returned None, d) else
  match script with
  | [] => (Pending, d)
  | round :: rest =>
      let d := disturbed round.(interrupted_in_call) d in
      match round.(attempt) with
      | Ok result => (Returned (Some result), on_success d)
      | Raise (NeptuneConnectionLostException error_name) =>
          let d := on_connection_lost error_name d in
          let d := backoff_wait round.(interrupted_in_wait) d in
          wrapper kill_message rest d
      | Raise e => (Raised e, emit (fatal_record kill_message) d)
      end
  end.

(** *** Vocabulary of the statements *)

(** A call of [func] that loses the connection, resp. returns, while
    no [interrupt()] arrives. *)
Definition lost {R} (error_name : string) : Round R :=
  {| attempt := Raise (NeptuneConnectionLostException error_name);
     interrupted_in_call := false;
     interrupted_in_wait := false |}.

Definition succeeds {R} (r : R) : Round R :=
  {| attempt := Ok r; interrupted_in_call := false;
     interrupted_in_wait := false |}.



Definition next_backoff (b : Z) : Z :=
  if b =? 0 then INITIAL_RETRY_BACKOFF else Z.min (b * 2) MAX_RETRY_BACKOFF.



End ConnectionRetryWrapper.
End Daemon.

(** ** The per-backend processor
       (operation_processors/async_operation_processor.py) *)

Module AsyncOperationProcessor.
Import Daemon.

(** state.py *)
Inductive OperationAcceptance : Type := ACCEPTING | REJECTING.

Definition is_accepting (a : OperationAcceptance) : bool :=
  match a with ACCEPTING => true | REJECTING => false end.

Definition QUEUE_BACKPRESSURE_THRESHOLD : Z := 5000.

Inductive Signal : Type :=
| BatchStartedSignal | BatchProcessedSignal | BatchLagSignal.

Section WithOperation.
Context {Operation Time : Type}.

Record QueueEntry : Type := { obj : Operation; ver : Z; at_ : Time }.

(** Modelled from the spec: the durable queue ([DiskQueue] and
    [InMemoryQueue], module [core.components.queue.disk_queue]) is not
    among the sources.  Section 4.2: [put] returns a fresh, increasing
    version; [ack v] acknowledges every version up to [v], whose
    entries leave the queue; [size] counts the entries still held. *)
Record Queue : Type := {
  entries : list QueueEntry;
  last_put : Z;
  ack_cursor : Z;
}.

Definition put (op : Operation) (now : Time) (q : Queue) : Z * Queue :=
  let version := q.(last_put) + 1 in
  (version,
   {| entries := q.(entries) ++ [{| obj := op; ver := version; at_ := now |}];
      last_put := version;
      ack_cursor := q.(ack_cursor) |}).

Definition ack (version : Z) (q : Queue) : Queue :=
  {| entries := List.filter (fun e => version <? e.(ver)) q.(entries);
     last_put := q.(last_put);
     ack_cursor := version |}.

Definition size (q : Queue) : Z := Z.of_nat (length q.(entries)).

(** What the processor does that other components observe, in order. *)
Inductive Event : Type :=
| EvFlush
| EvWakeUp
| EvLog (r : LogRecord)
| EvSignal (s : Signal)
| EvAcquire
| EvRelease
| EvNotifyAll
| EvExecute (operations : list Operation)
| EvExecuted (processed_count : Z)
| EvAck (version : Z)
| EvConsumed (version : Z)
| EvUnregister
| EvCloseResources.

(** [_consumer_state] is the [_state] of [self._consumer]; [warned] is
    the per-process registry behind [warn_once]; [trace] the events so
    far. *)
Record Processor : Type := {
  _queue : Queue;
  _batch_size : Z;
  _last_version : Z;
  _consumed_version : Z;
  _consumer_state : DaemonState;
  _operation_acceptance : OperationAcceptance;
  _queue_threshold : Z;
  _backend_index : option Z;
  warned : list string;
  trace : list Event;
}.

Definition new (batch_size : Z) (backend_index : option Z) : Processor :=
  {| _queue := {| entries := []; last_put := 0; ack_cursor := 0 |};
     _batch_size := batch_size;
     _last_version := 0;
     _consumed_version := 0;
     _consumer_state := INIT;
     _operation_acceptance := ACCEPTING;
     _queue_threshold := 0;
     _backend_index := backend_index;
     warned := [];
     trace := [] |}.

Definition set_queue (q : Queue) (p : Processor) : Processor :=
  {| _queue := q; _batch_size := p.(_batch_size);
     _last_version := p.(_last_version);
     _consumed_version := p.(_consumed_version);
     _consumer_state := p.(_consumer_state);
     _operation_acceptance := p.(_operation_acceptance);
     _queue_threshold := p.(_queue_threshold);
     _backend_index := p.(_backend_index);
     warned := p.(warned); trace := p.(trace) |}.

Definition set_last_version (v : Z) (p : Processor) : Processor :=
  {| _queue := p.(_queue); _batch_size := p.(_batch_size);
     _last_version := v;
     _consumed_version := p.(_consumed_version);
     _consumer_state := p.(_consumer_state);
     _operation_acceptance := p.(_operation_acceptance);
     _queue_threshold := p.(_queue_threshold);
     _backend_index := p.(_backend_index);
     warned := p.(warned); trace := p.(trace) |}.

Definition set_consumed_version (v : Z) (p : Processor) : Processor :=
  {| _queue := p.(_queue); _batch_size := p.(_batch_size);
     _last_version := p.(_last_version);
     _consumed_version := v;
     _consumer_state := p.(_consumer_state);
     _operation_acceptance := p.(_operation_acceptance);
     _queue_threshold := p.(_queue_threshold);
     _backend_index := p.(_backend_index);
     warned := p.(warned); trace := p.(trace) |}.

Definition set_consumer_state (s : DaemonState) (p : Processor) : Processor :=
  {| _queue := p.(_queue); _batch_size := p.(_batch_size);
     _last_version := p.(_last_version);
     _consumed_version := p.(_consumed_version);
     _consumer_state := s;
     _operation_acceptance := p.(_operation_acceptance);
     _queue_threshold := p.(_queue_threshold);
     _backend_index := p.(_backend_index);
     warned := p.(warned); trace := p.(trace) |}.

Definition set_acceptance (a : OperationAcceptance) (p : Processor) : Processor :=
  {| _queue := p.(_queue); _batch_size := p.(_batch_size);
     _last_version := p.(_last_version);
     _consumed_version := p.(_consumed_version);
     _consumer_state := p.(_consumer_state);
     _operation_acceptance := a;
     _queue_threshold := p.(_queue_threshold);
     _backend_index := p.(_backend_index);
     warned := p.(warned); trace := p.(trace) |}.

Definition set_threshold (t : Z) (p : Processor) : Processor :=
  {| _queue := p.(_queue); _batch_size := p.(_batch_size);
     _last_version := p.(_last_version);
     _consumed_version := p.(_consumed_version);
     _consumer_state := p.(_consumer_state);
     _operation_acceptance := p.(_operation_acceptance);
     _queue_threshold := t;
     _backend_index := p.(_backend_index);
     warned := p.(warned); trace := p.(trace) |}.

Definition set_warned (w : list string) (p : Processor) : Processor :=
  {| _queue := p.(_queue); _batch_size := p.(_batch_size);
     _last_version := p.(_last_version);
     _consumed_version := p.(_consumed_version);
     _consumer_state := p.(_consumer_state);
     _operation_acceptance := p.(_operation_acceptance);
     _queue_threshold := p.(_queue_threshold);
     _backend_index := p.(_backend_index);
     warned := w; trace := p.(trace) |}.

Definition emit (e : Event) (p : Processor) : Processor :=
  {| _queue := p.(_queue); _batch_size := p.(_batch_size);
     _last_version := p.(_last_version);
     _consumed_version := p.(_consumed_version);
     _consumer_state := p.(_consumer_state);
     _operation_acceptance := p.(_operation_acceptance);
     _queue_threshold := p.(_queue_threshold);
     _backend_index := p.(_backend_index);
     warned := p.(warned); trace := p.(trace) ++ [e] |}.

(** Modelled from the spec: [warn_once] (module [common.warnings]) is
    not among the sources; it issues a warning the first time a message
    is seen in the process and nothing afterwards. *)
Definition warn_once (message : string) (p : Processor) : Processor :=
  if existsb (String.eqb message) p.(warned) then p
  else emit (EvLog {| level := WARN_ONCE; msg := message; args := [] |})
            (set_warned (message :: p.(warned)) p).

Definition backend_prefix (p : Processor) : string :=
  match p.(_backend_index) with
  | Some idx => ("[backend " ++ pretty idx ++ "] ")%string
  | None => EmptyString
  end.

Definition flush (p : Processor) : Processor := emit EvFlush p.

Definition wake_up (p : Processor) : Processor := emit EvWakeUp p.

(** [size > batch_size / 2] with true division. *)
Definition _check_queue_size (p : Processor) : bool :=
  p.(_batch_size) <? 2 * size p.(_queue).

Definition _check_queue_backpressure (p : Processor) : Processor :=
  let current_threshold := size p.(_queue) / QUEUE_BACKPRESSURE_THRESHOLD in
  if p.(_queue_threshold) <? current_threshold
  then
    let ops_queued := current_threshold * QUEUE_BACKPRESSURE_THRESHOLD in
    set_threshold current_threshold
      (emit (EvLog {| level := WARNING;
                      msg := "%sQueue backpressure: %d ops queued (sync may be slower than logging)";
                      args := [ArgStr (backend_prefix p); ArgInt ops_queued] |}) p)
  else p.

Definition _check_queue_backpressure_lifted (p : Processor) : Processor :=
  if p.(_queue_threshold) =? 0 then p
  else
    let sz := size p.(_queue) in
    if sz <? QUEUE_BACKPRESSURE_THRESHOLD
    then set_threshold 0
           (emit (EvLog {| level := INFO;
                           msg := "%sQueue backpressure lifted (%d ops remaining)";
                           args := [ArgStr (backend_prefix p); ArgInt sz] |}) p)
    else p.

(** *** wait

    The consumer runs on another thread.  [observations] lists what
    [(_consumed_version, consumer state)] holds each time the predicate
    of [wait_for] is evaluated (first on entry, then after each
    notification); [then_] is what happens to the consumer state
    between the return of [wait_for] and the final [is_running()]. *)

Definition observe (o : Z * DaemonState) (p : Processor) : Processor :=
  set_consumer_state (snd o) (set_consumed_version (fst o) p).

Definition wait_predicate (waiting_for_version : Z) (p : Processor) : bool :=
  (waiting_for_version <=? p.(_consumed_version))
  || negb (is_running p.(_consumer_state)).

Fixpoint wait_for (waiting_for_version : Z)
    (observations : list (Z * DaemonState)) (p : Processor)
  : option Processor :=
  match observations with
  | [] => None
  | o :: rest =>
      let p := observe o p in
      if wait_predicate waiting_for_version p then Some p
      else wait_for waiting_for_version rest p
  end.

Definition wait (observations : list (Z * DaemonState))
    (then_ : list Action) (p : Processor) : Run unit * Processor :=
  let p := flush p in
  let waiting_for_version := p.(_last_version) in
  let p := wake_up p in
  let p := emit EvAcquire p in
  match wait_for waiting_for_version observations p with
  | None => (Pending, p)
  | Some p =>
      let p := emit EvRelease p in
      let p := set_consumer_state (after then_ p.(_consumer_state)) p in
      if negb (is_running p.(_consumer_state))
      then (Raised NeptuneSynchronizationAlreadyStoppedException, p)
      else (Returned tt, p)
  end.

(** *** enqueue_operation

    The decorator [ensure_disk_not_overutilize] is defined outside the
    sources; this is the decorated body. *)

Definition enqueue_operation (op : Operation) (wait_ : bool) (now : Time)
    (observations : list (Z * DaemonState)) (then_ : list Action)
    (p : Processor) : Run unit * Processor :=
  if negb (is_accepting p.(_operation_acceptance))
  then (Returned tt, warn_once "Not accepting operations" p)
  else
    let '(version, q) := put op now p.(_queue) in
    let p := set_last_version version (set_queue q p) in
    let p := _check_queue_backpressure p in
    let p := if _check_queue_size p then wake_up p else p in
    if wait_ then wait observations then_ p else (Returned tt, p).

(** *** close *)

Definition close (p : Processor) : Processor :=
  emit EvCloseResources (emit EvUnregister (set_acceptance REJECTING p)).

(** *** The consumer's process_batch *)

(** [batch[n:]] *)
Definition slice_from {A} (n : Z) (l : list A) : list A :=
  if 0 <=? n then drop (Z.to_nat n) l
  else drop (length l - Z.to_nat (- n)) l.

Definition contains (needle hay : string) : bool :=
  match String.index 0 needle hay with
  | Some _ => true
  | None => false
  end.

Fixpoint _handle_errors (errors : list Exception) (p : Processor) : Processor :=
  match errors with
  | [] => p
  | error :: rest =>
      let error_str := str error in
      if contains "sys/state is read only" error_str
      then _handle_errors rest
             (emit (EvLog {| level := DEBUG;
                             msg := "Skipped setting sys/state (read-only on Neptune backend)";
                             args := [] |}) p)
      else _handle_errors rest
             (emit (EvLog {| level := ERROR;
                             msg := "Error occurred during asynchronous operation processing: %s";
                             args := [ArgStr error_str] |}) p)
  end.

(** The body of [with self._processor._waiting_cond:] up to the test
    that ends the loop. *)
Definition acknowledge (version_to_ack : Z) (errors : list Exception)
    (p : Processor) : Processor :=
  let p := emit EvAcquire p in
  let p := emit (EvAck version_to_ack)
             (set_queue (ack version_to_ack p.(_queue)) p) in
  let p := _check_queue_backpressure_lifted p in
  let p := _handle_errors errors p in
  emit (EvConsumed version_to_ack) (set_consumed_version version_to_ack p).

(** The [while True] loop.  Each call of [backend.execute_operations]
    takes the next scripted answer. *)
Fixpoint process_batch_loop (answers : list (Result (Z * list Exception)))
    (batch : list Operation) (version version_to_ack : Z) (p : Processor)
  : Run unit * Processor :=
  match answers with
  | [] => (Pending, p)
  | answer :: rest =>
      let p := emit (EvExecute batch) p in
      match answer with
      | Raise e => (Raised e, p)
      | Ok (processed_count, errors) =>
          let p := emit (EvExecuted processed_count) p in
          let p := emit (EvSignal BatchProcessedSignal) p in
          let version_to_ack := version_to_ack + processed_count in
          let batch := slice_from processed_count batch in
          let p := acknowledge version_to_ack errors p in
          if version_to_ack =? version
          then (Returned tt, emit EvRelease (emit EvNotifyAll p))
          else process_batch_loop rest batch version version_to_ack
                 (emit EvRelease p)
      end
  end.

(** The body of [process_batch], without the retry wrapper around it. *)
Definition process_batch (answers : list (Result (Z * list Exception)))
    (batch : list Operation) (version : Z) (occurred_at : option Time)
    (p : Processor) : Run unit * Processor :=
  let p := match occurred_at with
           | Some _ => emit (EvSignal BatchLagSignal) p
           | None => p
           end in
  let expected_count := Z.of_nat (length batch) in
  let version_to_ack := version - expected_count in
  process_batch_loop answers batch version version_to_ack p.

(** *** Vocabulary of the statements *)



(** A sequence of [enqueue_operation] calls without [wait]. *)
Fixpoint enqueue_many (ops : list (Operation * Time)) (p : Processor)
  : list (Run unit) * Processor :=
  match ops with
  | [] => ([], p)
  | (op, now) :: rest =>
      let '(r, p) := enqueue_operation op false now [] [] p in
      let '(rs, p) := enqueue_many rest p in
      (r :: rs, p)
  end.

Definition not_accepting_record : LogRecord :=
  {| level := WARN_ONCE; msg := "Not accepting operations"; args := [] |}.

(** An observer of the events of [process_batch].  It keeps the sum of
    the [processed_count]s returned so far, the number of returns,
    whether the processor lock is held, and what happened in the
    current critical section. *)
Record Monitor : Type := {
  cumulative : Z;
  returns : nat;
  held : bool;
  acked : option Z;
  consumed : bool;
}.

Definition monitor0 : Monitor :=
  {| cumulative := 0; returns := 0; held := false; acked := None;
     consumed := false |}.

(** The observer accepts an event ([Some]) or rejects the trace
    ([None]).  [start] is the version preceding the batch.
    - an acknowledgement needs the lock, at least one return of
      [execute_operations], and the cursor [start + cumulative];
    - [_consumed_version] is written under the lock, after the
      acknowledgement of the same critical section and to the same
      version;
    - the lock is released with both done or none. *)
Definition observe_event (start : Z) (m : Monitor) (ev : Event)
  : option Monitor :=
  match ev with
  | EvExecuted n =>
      Some {| cumulative := m.(cumulative) + n; returns := S m.(returns);
              held := m.(held); acked := m.(acked); consumed := m.(consumed) |}
  | EvAcquire =>
      if m.(held) then None
      else Some {| cumulative := m.(cumulative); returns := m.(returns);
                   held := true; acked := None; consumed := false |}
  | EvAck v =>
      match m.(acked) with
      | None =>
          if m.(held) && (0 <? m.(returns))%nat && (v =? start + m.(cumulative))
          then Some {| cumulative := m.(cumulative); returns := m.(returns);
                       held := true; acked := Some v; consumed := false |}
          else None
      | Some _ => None
      end
  | EvConsumed v =>
      match m.(acked) with
      | Some v' =>
          if m.(held) && negb m.(consumed) && (v =? v')
          then Some {| cumulative := m.(cumulative); returns := m.(returns);
                       held := true; acked := Some v'; consumed := true |}
          else None
      | None => None
      end
  | EvRelease =>
      if m.(held) && Bool.eqb (is_Some_b m.(acked)) m.(consumed)
      then Some {| cumulative := m.(cumulative); returns := m.(returns);
                   held := false; acked := None; consumed := false |}
      else None
  | _ => Some m
  end.

Fixpoint observe_events (start : Z) (m : Monitor) (evs : list Event)
  : option Monitor :=
  match evs with
  | [] => Some m
  | ev :: rest =>
      match observe_event start m ev with
      | Some m' => observe_events start m' rest
      | None => None
      end
  end.


Definition is_log (ev : Event) : Prop :=
  match ev with EvLog _ => True | _ => False end.

(** What the logging helpers leave unchanged. *)
Definition logs_only (p p' : Processor) : Prop :=
  exists logs, Forall is_log logs /\ trace p' = trace p ++ logs /\
               _queue p' = _queue p /\
               _consumed_version p' = _consumed_version p.

End WithOperation.
Arguments Queue : clear implicits.
Arguments QueueEntry : clear implicits.
Arguments Processor : clear implicits.
Arguments Event : clear implicits.
Arguments Monitor : clear implicits.
End AsyncOperationProcessor.

(** ** More of the dispatcher: the health checker and the effect of a
       batch of outcomes on the health states *)

Module HealthCheck.
Import Health Dispatcher.
Section WithTime.
Context {Time : Type}.

Definition is_degraded (h : BackendHealth Time) : bool :=
  match h with Degraded _ _ => true | _ => false end.

(** What one run of [_check_degraded_backends] leaves behind: the
    dispatcher, the backends whose [health_ping] was called (in order)
    and whether a new timer was started. *)
Record Checked : Type := {
  after_check : MultiBackend Time;
  pinged : list NeptuneBackend;
  rescheduled : bool;
}.

(** The loop over the snapshot: a ping that raises only logs. *)
Fixpoint ping_each (health_ping : NeptuneBackend -> Result unit)
    (clock : Z -> Time) (degraded_info : list (Z * NeptuneBackend))
    (mb : MultiBackend Time) (called : list NeptuneBackend)
  : MultiBackend Time * list NeptuneBackend :=
  match degraded_info with
  | [] => (mb, called)
  | (idx, b) :: rest =>
      let called := called ++ [b] in
      match health_ping b with
      | Ok _ =>
          ping_each health_ping clock rest
            (snd (_transition_on_success idx (clock idx) mb)) called
      | Raise _ => ping_each health_ping clock rest mb called
      end
  end.

Definition degraded_snapshot (mb : MultiBackend Time)
  : list (Z * NeptuneBackend) :=
  map (fun state => (state.(index), state.(backend)))
      (List.filter (fun state => is_degraded state.(health))
                   mb.(_backend_states)).

Definition _check_degraded_backends (health_ping : NeptuneBackend -> Result unit)
    (clock : Z -> Time) (mb : MultiBackend Time) : Checked :=
  if mb.(_shutdown_event)
  then {| after_check := mb; pinged := []; rescheduled := false |}
  else
    let '(mb', called) :=
      ping_each health_ping clock (degraded_snapshot mb) mb [] in
    {| after_check := mb'; pinged := called;
       rescheduled := negb mb'.(_shutdown_event) |}.

(** [MultiBackendOperationProcessor._update_multi_backend_health]
    (multi_backend_operation_processor.py): [backoffs] lists
    [processor._consumer.last_backoff_time] for the processors in
    order, [_backend_indices] the original indices. *)
Fixpoint _update_multi_backend_health_from (i : nat) (backoffs : list Z)
    (_backend_indices : list Z) : @Disp Time unit :=
  match backoffs with
  | [] => mret tt
  | last_backoff_time :: rest =>
      _ ← (if 0 <? last_backoff_time
           then match _backend_indices !! i return @Disp Time unit with
                | Some original_index =>
                    mark_backend_disconnected original_index
                      (Some (GenericError "Exception"
                                          "Connection issues during sync"))
                | None => raise (GenericError "IndexError"
                                              "list index out of range")
                end
           else mret tt);
      _update_multi_backend_health_from (S i) rest _backend_indices
  end.

Definition _update_multi_backend_health (backoffs : list Z)
    (_backend_indices : list Z) : @Disp Time unit :=
  _update_multi_backend_health_from 0 backoffs _backend_indices.

(** *** Vocabulary of the statements *)

(** The health of state [s] after the outcome of one call on its
    backend. *)
Definition outcome_health {A} (answer : NeptuneBackend -> Result A)
    (clock : Z -> Time) (s : BackendState Time) : BackendHealth Time :=
  match answer s.(backend) with
  | Ok _ => compute_success_health (clock s.(index))
  | Raise e => compute_failure_health s.(health) e
  end.

Definition has_index (idxs : list Z) (s : BackendState Time) : bool :=
  existsb (Z.eqb s.(index)) idxs.

(** The states after every state whose index is in [idxs] took the
    outcome of its call. *)
Definition advanced {A} (answer : NeptuneBackend -> Result A)
    (clock : Z -> Time) (idxs : list Z) (states : list (BackendState Time))
  : list (BackendState Time) :=
  map (fun s => if has_index idxs s
                then with_health (outcome_health answer clock s) s
                else s) states.

(** [l] with the health of its first state of index [idx], if any,
    replaced by [f] of it. *)
Fixpoint update_first (idx : Z)
    (f : BackendHealth Time -> BackendHealth Time)
    (l : list (BackendState Time)) : list (BackendState Time) :=
  match l with
  | [] => []
  | s :: rest =>
      if s.(index) =? idx then with_health (f s.(health)) s :: rest
      else s :: update_first idx f rest
  end.

(** [pos] is the first position of [l] whose state has index [idx]. *)
Definition first_position (l : list (BackendState Time)) (idx : Z)
    (pos : nat) : Prop :=
  (exists s, l !! pos = Some s /\ s.(index) = idx) /\
  (forall j s', (j < pos)%nat -> l !! j = Some s' -> s'.(index) <> idx).

(** The dispatcher's original indices are pairwise different. *)
Definition distinct_indices (mb : MultiBackend Time) : Prop :=
  List.NoDup (map index mb.(_backend_states)).

(** The health step a worker applies for the backend of [s]. *)
Definition step_of {A} (answer : NeptuneBackend -> Result A)
    (clock : Z -> Time) (s : BackendState Time)
  : BackendHealth Time -> BackendHealth Time :=
  fun old => match answer s.(backend) with
             | Ok _ => compute_success_health (clock s.(index))
             | Raise e => compute_failure_health old e
             end.

(** The transitions of the backends in [l], one after the other. *)
Definition transitions {A} (answer : NeptuneBackend -> Result A)
    (clock : Z -> Time) (l : list (BackendState Time))
    (mb : MultiBackend Time) : MultiBackend Time :=
  fold_left
    (fun mb s => update_health s.(index) (step_of answer clock s) mb) l mb.

(** The states after every state whose index is in [idxs] had its
    health rewritten by [g] of its index. *)
Definition rewritten (g : Z -> BackendHealth Time -> BackendHealth Time)
    (idxs : list Z) (states : list (BackendState Time))
  : list (BackendState Time) :=
  map (fun s => if has_index idxs s
                then with_health (g s.(index) s.(health)) s
                else s) states.

(** What [mark_backend_disconnected] does to a health. *)
Definition disconnect (error : Exception) (h : BackendHealth Time)
  : BackendHealth Time :=
  match h with
  | Healthy _ => Degraded FAILURE_THRESHOLD error
  | _ => h
  end.

(** The original indices whose processor ended with a positive
    backoff. *)
Definition flagged (backoffs : list Z) (_backend_indices : list Z) : list Z :=
  map fst (List.filter (fun '(_, b) => 0 <? b) (zip _backend_indices backoffs)).

(** The degraded states whose ping succeeds. *)
Definition recovered (health_ping : NeptuneBackend -> Result unit)
    (s : BackendState Time) : bool :=
  is_degraded s.(health) && is_ok (health_ping s.(backend)).

(** Backends are told apart by their original index. *)
Definition compatible (l states : list (BackendState Time)) : Prop :=
  forall s s0, In s l -> In s0 states -> s0.(index) = s.(index) ->
               s0.(backend) = s.(backend).

End WithTime.
Arguments Checked : clear implicits.
End HealthCheck.


(** ** Vocabulary for the batches sent by the consumer *)

Module ConsumerThread.
Import AsyncOperationProcessor.
Section WithOperation.
Context {Operation : Type}.

(** The operation lists passed to [backend.execute_operations], in
    call order. *)
Fixpoint executed (evs : list (Event Operation)) : list (list Operation) :=
  match evs with
  | [] => []
  | EvExecute operations :: rest => operations :: executed rest
  | _ :: rest => executed rest
  end.

(** Backend answers that return, with non-negative counts. *)
Definition ok_answers (steps : list (nat * list Exception))
  : list (Result (Z * list Exception)) :=
  map (fun '(processed_count, errors) => Ok (Z.of_nat processed_count, errors))
      steps.

(** The sum of the counts. *)
Definition processed (steps : list (nat * list Exception)) : nat :=
  list_sum (map fst steps).

End WithOperation.
End ConsumerThread.


(** ** The processor of a multi-backend container
       (operation_processors/multi_backend_operation_processor.py) *)

Module MultiBackendOperationProcessor.
Import Daemon.
Section WithOperation.
Context {Operation Time : Type}.

(** What the call on one processor meets: the clock reading of its
    [put] and, for [wait=True], what its consumer thread shows. *)
Record Meets : Type := {
  now : Time;
  observations : list (Z * DaemonState);
  then_ : list Action;
}.

(** [enqueue_operation]: the loop
    [for processor in self._processors: processor.enqueue_operation(op, wait=wait)].
    [meets i] is what the processor at position [i] meets.  The copy of
    an uploaded file made before the loop ([_replicate_upload_file],
    for an [UploadFile] with a [tmp_file_name]) acts on the file system
    only and is left out. *)
Fixpoint enqueue_from (i : nat) (op : Operation) (wait_ : bool)
    (meets : nat -> Meets)
    (_processors : list (AsyncOperationProcessor.Processor Operation Time))
  : Run unit * list (AsyncOperationProcessor.Processor Operation Time) :=
  match _processors with
  | [] => (Returned tt, [])
  | processor :: rest =>
      let m := meets i in
      match AsyncOperationProcessor.enqueue_operation
              op wait_ m.(now) m.(observations) m.(then_) processor with
      | (Returned _, processor') =>
          let '(r, rest') := enqueue_from (S i) op wait_ meets rest in
          (r, processor' :: rest')
      | (r, processor') => (r, processor' :: rest)
      end
  end.

Definition enqueue_operation (op : Operation) (wait_ : bool)
    (meets : nat -> Meets)
    (_processors : list (AsyncOperationProcessor.Processor Operation Time))
  : Run unit * list (AsyncOperationProcessor.Processor Operation Time) :=
  enqueue_from 0 op wait_ meets _processors.

(** *** Vocabulary of the statements *)

(** The call of the processor at position [i]. *)
Definition enqueue_at (op : Operation) (wait_ : bool) (meets : nat -> Meets)
    (i : nat) (processor : AsyncOperationProcessor.Processor Operation Time)
  : Run unit * AsyncOperationProcessor.Processor Operation Time :=
  AsyncOperationProcessor.enqueue_operation
    op wait_ (meets i).(now) (meets i).(observations) (meets i).(then_) processor.

Definition returns {A} (r : Run A) : bool :=
  match r with Returned _ => true | _ => false end.

End WithOperation.
Arguments Meets : clear implicits.
End MultiBackendOperationProcessor.


(** ** Concrete inputs (scenarios of section 8 of the specification)

    Clock readings are integers here and operations are named by
    strings. *)

Module Scenario.
Import Health Dispatcher.

Definition b0 : NeptuneBackend := {| get_display_address := "a.example:443" |}.
Definition b1 : NeptuneBackend := {| get_display_address := "b.example:443" |}.
Definition b2 : NeptuneBackend := {| get_display_address := "c.example:443" |}.

Definition is_b0 (b : NeptuneBackend) : bool :=
  String.eqb b.(get_display_address) "a.example:443".

Definition one : MultiBackend Z := init 0 [b0].
Definition two : MultiBackend Z := init 0 [b0; b1].
Definition three : MultiBackend Z := init 0 [b0; b1; b2].

Definition down : Exception := GenericError "RuntimeError" "backend down".
Definition partial : Exception :=
  GenericError "MetadataInconsistency" "attribute type mismatch".

Definition clock (idx : Z) : Z := 10 + idx.

(** Backend 0 processes 3 operations and reports one per-operation
    error; every other backend raises. *)
Definition only_b0_writes (b : NeptuneBackend) : Result (Z * list Exception) :=
  if is_b0 b then Ok (3, [partial]) else Raise down.

Definition all_down {A} (b : NeptuneBackend) : Result A := Raise down.

Definition u1 : ApiExperiment := {| id := "U1"; sys_id := "RUN-1" |}.

(** The primary creates the run; with the primary's identifiers the
    second backend adopts them and the third raises. *)
Definition creates (b : NeptuneBackend) (ext_id ext_sys_id : option string)
  : Result ApiExperiment :=
  if is_b0 b then Ok u1
  else if String.eqb b.(get_display_address) "b.example:443"
       then match ext_id, ext_sys_id with
            | Some i, Some s => Ok {| id := i; sys_id := s |}
            | _, _ => Raise (GenericError "ValueError" "no external id")
            end
       else Raise down.

Definition url_of (b : NeptuneBackend) : Result string :=
  Ok ("https://" ++ b.(get_display_address) ++ "/run")%string.


(** A dispatcher whose first backend is degraded. *)
Definition first_degraded : MultiBackend Z :=
  {| _backend_states :=
       [ {| backend := b0; index := 0; health := Degraded 3 down |};
         {| backend := b1; index := 1; health := Healthy 0 |} ];
     _shutdown_event := false; _executor_down := false;
     _timer_cancelled := false; calls := [] |}.

Definition all_degraded : MultiBackend Z :=
  {| _backend_states :=
       [ {| backend := b0; index := 0; health := Degraded 3 down |};
         {| backend := b1; index := 1; health := Degraded 5 down |} ];
     _shutdown_event := false; _executor_down := false;
     _timer_cancelled := false; calls := [] |}.

Definition reversed (l : list (BackendState Z)) : list (BackendState Z) := rev l.

(** A running consumer with backend index 1. *)
Definition consumer : Daemon.Daemon :=
  Daemon.set_state Daemon.WORKING (Daemon.new (Some 1)).

Definition eight_losses : list string :=
  repeat "ConnectionError" 8.

(** A processor with three operations queued. *)
Definition processor : AsyncOperationProcessor.Processor string Z :=
  snd (AsyncOperationProcessor.enqueue_many
         [("A", 1); ("B", 2); ("C", 3)]
         (AsyncOperationProcessor.set_consumer_state Daemon.WORKING
            (AsyncOperationProcessor.new 2048 (Some 0)))).


(** Inputs for the further properties. *)

Definition first_state : BackendState Z :=
  {| backend := b0; index := 0; health := Healthy 0 |}.
Definition second_state : BackendState Z :=
  {| backend := b1; index := 1; health := Healthy 0 |}.
Definition degraded_state : BackendState Z :=
  {| backend := b0; index := 0; health := Degraded 3 down |}.

(** Only backend 0 answers its health ping. *)
Definition pings (b : NeptuneBackend) : Result unit :=
  if is_b0 b then Ok tt else Raise down.

(** Backend 0 raises on a read, the others answer. *)
Definition only_b0_fails (b : NeptuneBackend) : Result string :=
  if is_b0 b then Raise down else Ok "value".

(** Only backend 0 creates the model. *)
Definition creates_model (b : NeptuneBackend) : Result ApiExperiment :=
  if is_b0 b then Ok u1 else Raise down.


(** A connection loss during whose wait [interrupt()] arrives. *)
Definition interrupted_round : Daemon.ConnectionRetryWrapper.Round unit :=
  {| Daemon.ConnectionRetryWrapper.attempt :=
       Raise (NeptuneConnectionLostException "ConnectionError");
     Daemon.ConnectionRetryWrapper.interrupted_in_call := false;
     Daemon.ConnectionRetryWrapper.interrupted_in_wait := true |}.

Definition recovering : list (Daemon.ConnectionRetryWrapper.Round unit) :=
  [Daemon.ConnectionRetryWrapper.lost "ConnectionError";
   Daemon.ConnectionRetryWrapper.succeeds tt].

(** A processor whose consumer thread has stopped. *)
Definition stopped : AsyncOperationProcessor.Processor string Z :=
  AsyncOperationProcessor.set_consumer_state Daemon.STOPPED
    (AsyncOperationProcessor.new 2048 (Some 0)).

Definition sees_stopped (i : nat) : MultiBackendOperationProcessor.Meets Z :=
  {| MultiBackendOperationProcessor.now := 0;
     MultiBackendOperationProcessor.observations := [(0, Daemon.STOPPED)];
     MultiBackendOperationProcessor.then_ := [] |}.

(** The answers after a first one: the backend processes two more
    operations and reports one per-operation error. *)
Definition one_then_two : list (nat * list Exception) := [(2%nat, [partial])].


End Scenario.

(** * Properties *)

(** ** The health state machine *)

Section HealthProperties.
Import Health.
Context {Time : Type}.
Implicit Types (h : BackendHealth Time) (o : Outcome Time)
               (os : list (Outcome Time)).

Lemma counts_success h now : counts (transition h (Success now)) 0.
Proof. split; reflexivity. Qed.

Lemma counts_failure h k error :
  counts h k -> counts (transition h (Failure error)) (k + 1).
Proof.
  intros [Hinv Hk]. unfold counts.
  destruct h as [t | n e t | n e]; simpl in *; rewrite <- Hk.
  - split; [lia | reflexivity].
  - unfold FAILURE_THRESHOLD. destruct (Z.ltb_spec n (3 - 1)); split; simpl; lia.
  - split; [lia | reflexivity].
Qed.

Lemma run_snoc h os o : run h (os ++ [o]) = transition (run h os) o.
Proof. unfold run. now rewrite fold_left_app. Qed.

Lemma trailing_failures_snoc_success os now :
  trailing_failures (os ++ [Success now]) = 0.
Proof. unfold trailing_failures. now rewrite rev_app_distr. Qed.

Lemma trailing_failures_snoc_failure os error :
  trailing_failures (os ++ [Failure error]) = 1 + trailing_failures os.
Proof. unfold trailing_failures. now rewrite rev_app_distr. Qed.

Lemma trailing_failures_nonneg os : 0 <= trailing_failures os.
Proof.
  unfold trailing_failures. induction (rev os) as [| [now | error] l IH];
    simpl; lia.
Qed.

Lemma run_preserves_inv h os : health_inv h -> health_inv (run h os).
Proof.
  induction os as [| o os IH] using rev_ind; intros Hinv; [exact Hinv |].
  rewrite run_snoc. destruct o as [now | error]; [exact I |].
  apply (counts_failure (run h os) (failure_count (run h os))).
  split; [auto | reflexivity].
Qed.

Lemma run_counts_trailing t os :
  counts (run (Healthy t) os) (trailing_failures os).
Proof.
  induction os as [| o os IH] using rev_ind; [split; reflexivity |].
  rewrite run_snoc. destruct o as [now | error].
  - rewrite trailing_failures_snoc_success. apply counts_success.
  - rewrite trailing_failures_snoc_failure, Z.add_comm. now apply counts_failure.
Qed.

Lemma counts_variant h k :
  counts h k -> 0 <= k ->
  (variant h = VHealthy <-> k = 0) /\
  (variant h = VFailing <-> 1 <= k <= 2) /\
  (variant h = VDegraded <-> 3 <= k).
Proof.
  intros [Hinv Hk] Hpos.
  destruct h as [t | n e t | n e]; simpl in *; subst;
    repeat split; intros; try lia; try discriminate; try reflexivity.
Qed.

(** C1. The health state machine keeps its invariant under every
    sequence of outcomes: a [Failing] state always has a count of 1 or
    2 and a [Degraded] one a count of at least 3, [Healthy] carrying no
    count.  Started from [Healthy], the state after a sequence is
    [Healthy], [Failing] or [Degraded] exactly when the number of
    failures since the last success is 0, 1..2 or at least 3, and that
    number is the stored count.  The single steps are: success from any
    state gives [Healthy]; failure gives [Failing 1] from [Healthy],
    [Failing 2] from [Failing 1], [Degraded 3] from [Failing 2] and
    [Degraded (n+1)] from [Degraded n]. *)
Theorem C1_health_state_machine :
  (forall h os, health_inv h -> health_inv (run h os)) /\
  (forall (t : Time) os,
      let h := run (Healthy t) os in
      let k := trailing_failures os in
      health_inv h /\ failure_count h = k /\
      (variant h = VHealthy <-> k = 0) /\
      (variant h = VFailing <-> 1 <= k <= 2) /\
      (variant h = VDegraded <-> 3 <= k)) /\
  (forall h now, transition h (Success now) = Healthy now) /\
  (forall (t : Time) error,
      compute_failure_health (Healthy t) error = Failing 1 error t) /\
  (forall e (t : Time) error,
      compute_failure_health (Failing 1 e t) error = Failing 2 error t) /\
  (forall e (t : Time) error,
      compute_failure_health (Failing 2 e t) error = Degraded 3 error) /\
  (forall n e error,
      compute_failure_health (Degraded n e : BackendHealth Time) error
      = Degraded (n + 1) error).
Proof.
  split; [exact run_preserves_inv |].
  split; [| repeat split].
  intros t os h k.
  pose proof (run_counts_trailing t os) as Hc.
  pose proof (counts_variant _ _ Hc (trailing_failures_nonneg os)) as Hv.
  destruct Hc as [Hinv Hk]. tauto.
Qed.

End HealthProperties.

(** An instance of C1: three failures in a row from [Failing 1] stay
    within the invariant. *)
Lemma C1_health_state_machine_witness :
  let h : Health.BackendHealth Z := Health.Failing 1 (GenericError "E" "x") 0 in
  let os := [Health.Failure (GenericError "E" "y");
             Health.Failure (GenericError "E" "z");
             Health.Success 7;
             Health.Failure (GenericError "E" "w")] in
  Health.health_inv h /\ Health.health_inv (Health.run h os).
Proof.
  intros h os. split.
  - simpl. lia.
  - apply (proj1 (@C1_health_state_machine Z)). simpl. lia.
Defined.

(** ** The dispatcher *)

Section DispatcherProperties.
Import Health Dispatcher.
Context {Time : Type}.
Implicit Types (mb : MultiBackend Time) (s state : BackendState Time)
               (l : list (BackendState Time)).

Ltac unfold_disp :=
  unfold mbind, mret, disp_bind, disp_ret, bind, ret, raise, get, modify,
    try_except, call_backend in *.

Lemma same_shape_refl mb : same_shape mb mb.
Proof. repeat split. Qed.

Lemma same_shape_trans mb1 mb2 mb3 :
  same_shape mb1 mb2 -> same_shape mb2 mb3 -> same_shape mb1 mb3.
Proof. unfold same_shape. intuition congruence. Qed.

Lemma update_health_shape idx f mb : same_shape mb (update_health idx f mb).
Proof.
  unfold update_health.
  destruct (_find_state_position mb idx) as [pos |]; [| apply same_shape_refl].
  destruct (_backend_states mb !! pos) as [current |]; [| apply same_shape_refl].
  repeat split. simpl. apply length_insert.
Qed.

Lemma update_health_calls idx f mb :
  calls (update_health idx f mb) = calls mb.
Proof.
  unfold update_health.
  destruct (_find_state_position mb idx) as [pos |]; [| reflexivity].
  now destruct (_backend_states mb !! pos).
Qed.

Lemma record_call_shape c mb : same_shape mb (record_call c mb).
Proof. repeat split. Qed.

Lemma raise_all_failed_eq {A} errors mb :
  @_raise_all_failed Time A errors mb
  = (Raise (all_failed (_is_single_backend mb) errors), mb).
Proof.
  unfold _raise_all_failed, all_failed. unfold_disp.
  destruct errors as [| e [| e' errors]]; try reflexivity.
  now destruct (_is_single_backend mb).
Qed.

Lemma is_single_backend_shape mb mb' :
  same_shape mb mb' -> _is_single_backend mb' = _is_single_backend mb.
Proof. intros (Hlen & _). unfold _is_single_backend. now rewrite Hlen. Qed.

(** A transition rewrites one slot: the other backends keep their
    state, and every slot keeps its backend and its index. *)
Lemma update_health_other idx f mb pos pos' :
  _find_state_position mb idx = Some pos -> pos' <> pos ->
  _backend_states (update_health idx f mb) !! pos' = _backend_states mb !! pos'.
Proof.
  intros Hpos Hne. unfold update_health. rewrite Hpos.
  destruct (_backend_states mb !! pos) as [current |]; [| reflexivity].
  simpl. now apply list_lookup_insert_ne.
Qed.

Lemma update_health_identity idx f mb :
  map (fun s => (backend s, index s)) (_backend_states (update_health idx f mb))
  = map (fun s => (backend s, index s)) (_backend_states mb).
Proof.
  unfold update_health.
  destruct (_find_state_position mb idx) as [pos |]; [| reflexivity].
  destruct (_backend_states mb !! pos) as [current |] eqn:E; [| reflexivity].
  simpl. apply list_eq. intros i. rewrite !list_lookup_fmap.
  destruct (decide (i = pos)) as [-> | Hne].
  - rewrite list_lookup_insert_eq by (eapply lookup_lt_Some; eauto).
    rewrite E. reflexivity.
  - now rewrite list_lookup_insert_ne by congruence.
Qed.

(** The dispatcher's transitions keep every slot within the invariant
    of the health states. *)
Lemma update_health_inv idx f mb :
  (forall h, health_inv h -> health_inv (f h)) ->
  Forall (fun s => health_inv (health s)) (_backend_states mb) ->
  Forall (fun s => health_inv (health s))
         (_backend_states (update_health idx f mb)).
Proof.
  intros Hf Hall. unfold update_health.
  destruct (_find_state_position mb idx) as [pos |]; [| exact Hall].
  destruct (_backend_states mb !! pos) as [current |] eqn:E; [| exact Hall].
  simpl. apply Forall_insert; [exact Hall |]. simpl. apply Hf.
  exact (proj1 (Forall_lookup _ _) Hall pos current E).
Qed.

Lemma transitions_keep_inv idx mb :
  Forall (fun s => health_inv (health s)) (_backend_states mb) ->
  (forall now,
      Forall (fun s => health_inv (health s))
             (_backend_states (snd (_transition_on_success idx now mb)))) /\
  (forall error,
      Forall (fun s => health_inv (health s))
             (_backend_states (snd (_transition_on_failure idx error mb)))) /\
  (forall error,
      Forall (fun s => health_inv (health s))
             (_backend_states (snd (mark_backend_disconnected idx error mb)))).
Proof.
  intros Hall. repeat split; intros; simpl; apply update_health_inv; auto.
  - intros h _. exact I.
  - intros h Hh. exact (run_preserves_inv h [Failure error] Hh).
  - intros [t | n e t | n e] Hh; simpl; auto. unfold FAILURE_THRESHOLD. lia.
Qed.

(** The routable list is the filter, in order, unless it is empty. *)
Lemma routable_states_sublist l : sublist (routable_states l) l.
Proof.
  induction l as [| s l IH]; simpl; [constructor |].
  destruct (is_routable (health s)); now constructor.
Qed.

Lemma routable_states_In s l :
  In s (routable_states l) <-> In s l /\ variant (health s) <> VDegraded.
Proof.
  unfold routable_states. rewrite filter_In.
  destruct (health s); simpl; intuition congruence.
Qed.

(** C4. [_get_routable_backends] returns the states whose health is
    [Healthy] or [Failing], in the order of the state list (it is the
    sub-list of exactly the states that are not [Degraded]); when there
    is no such state it returns the whole state list. *)
Theorem C4_routable_backends mb :
  let routable := routable_states (_backend_states mb) in
  sublist routable (_backend_states mb) /\
  (forall s, In s routable <->
             In s (_backend_states mb) /\ variant (health s) <> VDegraded) /\
  (routable <> [] -> _get_routable_backends mb = routable) /\
  (routable = [] -> _get_routable_backends mb = _backend_states mb).
Proof.
  intros routable. split; [apply routable_states_sublist |].
  split; [intros s; apply routable_states_In |].
  unfold _get_routable_backends. fold routable.
  split; intros H; destruct routable; congruence.
Qed.

(** *** Workers and fan-out *)

Lemma transition_success_shape idx now mb :
  exists mb', _transition_on_success idx now mb = (Ok tt, mb') /\
              same_shape mb mb' /\ calls mb' = calls mb.
Proof.
  eexists. split; [reflexivity |].
  split; [apply update_health_shape | apply update_health_calls].
Qed.

Lemma transition_failure_shape idx error mb :
  exists mb', _transition_on_failure idx error mb = (Ok tt, mb') /\
              same_shape mb mb' /\ calls mb' = calls mb.
Proof.
  eexists. split; [reflexivity |].
  split; [apply update_health_shape | apply update_health_calls].
Qed.

Lemma worker_ok {A} (c : NeptuneBackend -> Call)
    (answer : NeptuneBackend -> Result A) (clock : Z -> Time) :
  worker_spec (worker c answer clock) (worker_result answer)
              (fun s => c (backend s)).
Proof.
  intros s mb. unfold worker, worker_result. unfold_disp.
  destruct (answer (backend s)) as [r | e]; simpl.
  - destruct (transition_success_shape (index s) (clock (index s))
                (record_call (c (backend s)) mb)) as (mb' & Heq & Hsh & Hc).
    unfold _transition_on_success, modify in Heq. injection Heq as Heq.
    rewrite Heq. exists mb'. split; [reflexivity |]. split.
    + eapply same_shape_trans; [apply record_call_shape | exact Hsh].
    + now rewrite Hc.
  - destruct (transition_failure_shape (index s) e
                (record_call (c (backend s)) mb)) as (mb' & Heq & Hsh & Hc).
    unfold _transition_on_failure, modify in Heq. injection Heq as Heq.
    rewrite Heq. exists mb'. split; [reflexivity |]. split.
    + eapply same_shape_trans; [apply record_call_shape | exact Hsh].
    + now rewrite Hc.
Qed.

Lemma run_workers_spec {R} (w : BackendState Time -> Disp R) r c l mb :
  worker_spec w r c ->
  exists mb', run_workers w l mb = (Ok (map r l), mb') /\
              same_shape mb mb' /\ calls mb' = calls mb ++ map c l.
Proof.
  intros Hw. revert mb. induction l as [| s l IH]; intros mb; simpl.
  - exists mb. split; [reflexivity |]. split; [apply same_shape_refl |].
    now rewrite app_nil_r.
  - destruct (Hw s mb) as (mb1 & Hs & Hsh1 & Hc1).
    destruct (IH mb1) as (mb2 & Hl & Hsh2 & Hc2).
    exists mb2. unfold_disp. rewrite Hs, Hl. split; [reflexivity |]. split.
    + eapply same_shape_trans; eassumption.
    + rewrite Hc2, Hc1, <- app_assoc. reflexivity.
Qed.

Lemma collect_spec {A} (answer : NeptuneBackend -> Result A) l errs res :
  collect (map (worker_result answer) l) errs res
  = (errs ++ failures answer l, res ++ successes answer l).
Proof.
  revert errs res. induction l as [| s l IH]; intros errs res; simpl.
  - now rewrite !app_nil_r.
  - unfold worker_result at 1, failure_entry, success_entry.
    destruct (answer (backend s)) as [r | e]; simpl;
      rewrite IH, <- ?app_assoc; reflexivity.
Qed.

Lemma check_not_closed_open mb :
  _shutdown_event mb = false -> _check_not_closed mb = (Ok tt, mb).
Proof. intros H. unfold _check_not_closed. unfold_disp. now rewrite H. Qed.


Lemma submit_all_open l mb :
  _executor_down mb = false -> submit_all l mb = (Ok tt, mb).
Proof.
  intros H. unfold submit_all. unfold_disp. destruct l; [reflexivity |].
  now rewrite H.
Qed.

(** [execute_operations] on an open dispatcher, computed. *)
Lemma execute_operations_eq answer clock as_completed mb :
  is_open mb ->
  let finished := as_completed (_get_routable_backends mb) in
  exists mb',
    execute_operations answer clock as_completed mb
    = (match successes answer finished with
       | [] => Raise (all_failed (_is_single_backend mb)
                                 (failures answer finished))
       | r :: rs => Ok (py_max (fst r) (map fst rs), failures answer finished)
       end, mb') /\
    same_shape mb mb' /\
    calls mb' = calls mb ++ map (fun s => CallExecuteOperations (backend s)) finished.
Proof.
  intros [Hopen Hexec] finished. unfold execute_operations.
  unfold mbind at 1, disp_bind, bind. rewrite (check_not_closed_open _ Hopen).
  unfold mbind at 1, disp_bind, bind, get. rewrite Hopen.
  unfold mbind at 1, disp_bind, bind. rewrite (submit_all_open _ _ Hexec).
  unfold mbind at 1, disp_bind, bind.
  destruct (run_workers_spec _ _ _ finished mb
              (worker_ok CallExecuteOperations answer clock))
    as (mb' & Hrun & Hsh & Hcalls).
  fold finished. rewrite Hrun, collect_spec. simpl.
  exists mb'. destruct (successes answer finished) as [| r rs].
  - rewrite raise_all_failed_eq, (is_single_backend_shape _ _ Hsh). auto.
  - auto.
Qed.

(** *** execute_operations *)

Lemma py_max_ge x xs : x <= py_max x xs /\ (forall y, In y xs -> y <= py_max x xs).
Proof.
  unfold py_max. revert x. induction xs as [| z xs IH]; intros x; simpl.
  - split; [lia | tauto].
  - destruct (IH (Z.max x z)) as [H1 H2]. split; [lia |].
    intros y [-> | Hy]; [lia | auto].
Qed.

Lemma py_max_In x xs : In (py_max x xs) (x :: xs).
Proof.
  unfold py_max. revert x. induction xs as [| z xs IH]; intros x; simpl.
  - now left.
  - destruct (IH (Z.max x z)) as [H | H]; [| right; right; exact H].
    rewrite <- H.
    destruct (Z.max_spec x z) as [[_ Hm] | [_ Hm]]; rewrite Hm; auto.
Qed.

Lemma failures_perm {A} (answer : NeptuneBackend -> Result A) l l' :
  Permutation l l' -> Permutation (failures answer l) (failures answer l').
Proof. apply Permutation_flat_map. Qed.

Lemma successes_perm {A} (answer : NeptuneBackend -> Result A) l l' :
  Permutation l l' -> Permutation (successes answer l) (successes answer l').
Proof. apply Permutation_flat_map. Qed.

Lemma In_successes {A} (answer : NeptuneBackend -> Result A) l r :
  In r (successes answer l) <-> exists s, In s l /\ answer (backend s) = Ok r.
Proof.
  unfold successes. rewrite in_flat_map. unfold success_entry.
  split; intros (s & Hs & H); exists s; split; auto.
  - destruct (answer (backend s)); simpl in H; [| tauto].
    destruct H as [-> | []]. reflexivity.
  - rewrite H. now left.
Qed.

Lemma In_failures {A} (answer : NeptuneBackend -> Result A) l err :
  In err (failures answer l) <->
  exists s e, In s l /\ answer (backend s) = Raise e /\
              err = BackendError (index s) (inl e).
Proof.
  unfold failures. rewrite in_flat_map. unfold failure_entry. split.
  - intros (s & Hs & H). destruct (answer (backend s)) as [r | e] eqn:E;
      simpl in H; [tauto |]. destruct H as [<- | []]. eauto.
  - intros (s & e & Hs & E & ->). exists s. rewrite E. split; [auto | now left].
Qed.

(** C2. On an open dispatcher, when the call of at least one of the
    backends used succeeds, [execute_operations] returns a pair: its
    first component is the greatest [processed_count] returned by a
    successful backend, its second component holds exactly one
    [BackendError] per backend whose call raised (in completion order),
    each wrapping the index and the exception raised, so that the
    per-operation errors returned by successful backends are not in
    it. *)
Theorem C2_execute_operations
    (answer : NeptuneBackend -> Result (Z * list Exception))
    (clock : Z -> Time)
    (as_completed : list (BackendState Time) -> list (BackendState Time)) mb :
  is_open mb ->
  (forall l, Permutation (as_completed l) l) ->
  let used := _get_routable_backends mb in
  (exists s, In s used /\ is_ok (answer (backend s)) = true) ->
  exists max_processed backend_errors,
    fst (execute_operations answer clock as_completed mb)
    = Ok (max_processed, backend_errors) /\
    In max_processed (map fst (successes answer used)) /\
    (forall r, In r (successes answer used) -> fst r <= max_processed) /\
    Permutation backend_errors (failures answer used) /\
    (forall err, In err backend_errors ->
       exists s e, In s used /\ answer (backend s) = Raise e /\
                   err = BackendError (index s) (inl e)).
Proof.
  intros Hopen Hperm used (s0 & Hs0 & Hok0).
  destruct (execute_operations_eq answer clock as_completed mb Hopen)
    as (mb' & Heq & _). fold used in Heq. rewrite Heq. simpl.
  pose proof (successes_perm answer _ _ (Hperm used)) as HpS.
  pose proof (failures_perm answer _ _ (Hperm used)) as HpF.
  destruct (successes answer (as_completed used)) as [| r rs] eqn:Es.
  - exfalso. destruct (answer (backend s0)) as [r0 |] eqn:E0; [| discriminate].
    assert (In r0 (successes answer used)) as Hin
        by (apply In_successes; eauto).
    apply (Permutation_in _ (Permutation_sym HpS)) in Hin. destruct Hin.
  - exists (py_max (fst r) (map fst rs)), (failures answer (as_completed used)).
    split; [reflexivity |]. split; [| split; [| split]].
    + apply (Permutation_in _ (Permutation_map fst HpS)).
      apply (py_max_In (fst r) (map fst rs)).
    + intros r' Hr'. apply (Permutation_in _ (Permutation_sym HpS)) in Hr'.
      destruct (py_max_ge (fst r) (map fst rs)) as [H1 H2].
      destruct Hr' as [<- | Hr']; [exact H1 |]. apply H2. now apply in_map.
    + exact HpF.
    + intros err Herr. apply (Permutation_in _ HpF) in Herr.
      now apply In_failures.
Qed.

(** *** All backends failed *)

Lemma try_backends_all_fail {A} (answer : NeptuneBackend -> Result A)
    (clock : Z -> Time) l errors mb :
  Forall (fails answer) l ->
  exists mb',
    try_backends answer clock l errors mb
    = (Raise (all_failed (_is_single_backend mb) (errors ++ failures answer l)),
       mb') /\
    same_shape mb mb'.
Proof.
  intros Hall. revert errors mb.
  induction Hall as [| s l Hs Hall IH]; intros errors mb; simpl.
  - rewrite raise_all_failed_eq, app_nil_r. eauto using same_shape_refl.
  - unfold fails in Hs. unfold failure_entry. unfold_disp.
    destruct (answer (backend s)) as [r | e]; [discriminate |]. simpl.
    destruct (transition_failure_shape (index s) e
                (record_call (CallRead (backend s)) mb)) as (mb1 & Heq & Hsh & _).
    unfold _transition_on_failure, modify in Heq. injection Heq as Heq.
    rewrite Heq.
    destruct (IH (errors ++ [BackendError (index s) (inl e)]) mb1)
      as (mb2 & Hrec & Hsh2).
    assert (same_shape mb mb1) as Hsh1
        by (eapply same_shape_trans; [apply record_call_shape | exact Hsh]).
    exists mb2. rewrite Hrec, <- app_assoc, (is_single_backend_shape _ _ Hsh1).
    split; [reflexivity |]. eapply same_shape_trans; eassumption.
Qed.

Lemma read_operation_all_fail {A} (answer : NeptuneBackend -> Result A)
    (clock : Z -> Time) mb :
  _shutdown_event mb = false ->
  Forall (fails answer) (_get_routable_backends mb) ->
  fst (read_operation answer clock mb)
  = Raise (all_failed (_is_single_backend mb)
                      (failures answer (_get_routable_backends mb))).
Proof.
  intros Hopen Hall. unfold read_operation.
  unfold mbind at 1, disp_bind, bind. rewrite (check_not_closed_open _ Hopen).
  unfold mbind at 1, disp_bind, bind, get.
  destruct (try_backends_all_fail answer clock _ [] mb Hall) as (mb' & Heq & _).
  rewrite Heq. reflexivity.
Qed.

Lemma failures_all_fail {A} (answer : NeptuneBackend -> Result A) l :
  Forall (fails answer) l ->
  Forall2 (fun s err => exists e, answer (backend s) = Raise e /\
                                 err = BackendError (index s) (inl e))
          l (failures answer l).
Proof.
  induction 1 as [| s l Hs Hall IH]; simpl; [constructor |].
  unfold fails in Hs. unfold failure_entry at 1.
  destruct (answer (backend s)) as [r | e] eqn:E; [discriminate |].
  simpl. constructor; eauto.
Qed.

Lemma routable_single mb s :
  _backend_states mb = [s] -> _get_routable_backends mb = [s].
Proof.
  intros H. unfold _get_routable_backends. rewrite H. simpl.
  now destruct (is_routable (health s)).
Qed.

Lemma successes_all_fail {A} (answer : NeptuneBackend -> Result A) l :
  Forall (fails answer) l -> successes answer l = [].
Proof.
  induction 1 as [| s l Hs Hall IH]; simpl; [reflexivity |].
  unfold fails in Hs. unfold success_entry at 1.
  destruct (answer (backend s)); [discriminate | exact IH].
Qed.

(** C9. When every backend tried (the routable ones) raises, a read
    operation and [execute_operations] raise: the error list has one
    [BackendError (original_index, cause)] per failed backend, in the
    order tried (completion order for the fan-out); with more or fewer
    than one wrapped backend the exception is [AllBackendsFailedError]
    with that list, and when the dispatcher wraps exactly one backend
    the exception raised by that backend is re-raised as it is. *)
Theorem C9_all_backends_failed {A}
    (answer : NeptuneBackend -> Result A)
    (answer_w : NeptuneBackend -> Result (Z * list Exception))
    (clock : Z -> Time)
    (as_completed : list (BackendState Time) -> list (BackendState Time)) mb :
  is_open mb ->
  (forall l, Permutation (as_completed l) l) ->
  let tried := _get_routable_backends mb in
  (Forall (fails answer) tried ->
     Forall2 (fun s err => exists e, answer (backend s) = Raise e /\
                                    err = BackendError (index s) (inl e))
             tried (failures answer tried) /\
     (_is_single_backend mb = false ->
        fst (read_operation answer clock mb)
        = Raise (AllBackendsFailedError (failures answer tried))) /\
     (forall s e, _backend_states mb = [s] -> answer (backend s) = Raise e ->
        fst (read_operation answer clock mb) = Raise e)) /\
  (Forall (fails answer_w) tried ->
     Forall2 (fun s err => exists e, answer_w (backend s) = Raise e /\
                                    err = BackendError (index s) (inl e))
             (as_completed tried) (failures answer_w (as_completed tried)) /\
     (_is_single_backend mb = false ->
        fst (execute_operations answer_w clock as_completed mb)
        = Raise (AllBackendsFailedError (failures answer_w (as_completed tried)))) /\
     (forall s e, _backend_states mb = [s] -> answer_w (backend s) = Raise e ->
        fst (execute_operations answer_w clock as_completed mb) = Raise e)).
Proof.
  intros Hopen Hperm tried. split; intros Hall.
  - split; [now apply failures_all_fail |].
    rewrite (read_operation_all_fail answer clock mb (proj1 Hopen) Hall).
    fold tried. split.
    + intros ->. unfold all_failed.
      now destruct (failures answer tried) as [| ? [| ? ?]].
    + intros s e Hs He. unfold tried. rewrite (routable_single _ _ Hs).
      unfold _is_single_backend. rewrite Hs. simpl.
      unfold failure_entry. now rewrite He.
  - assert (Forall (fails answer_w) (as_completed tried)) as Hall'.
    { exact (Permutation_Forall (Permutation_sym (Hperm tried)) Hall). }
    split; [now apply failures_all_fail |].
    destruct (execute_operations_eq answer_w clock as_completed mb Hopen)
      as (mb' & Heq & _). fold tried in Heq. rewrite Heq. simpl.
    rewrite (successes_all_fail _ _ Hall'). split.
    + intros ->. unfold all_failed.
      now destruct (failures answer_w (as_completed tried)) as [| ? [| ? ?]].
    + intros s e Hs He. unfold tried. rewrite (routable_single _ _ Hs).
      rewrite (Permutation_length_1_inv (Permutation_sym (Hperm [s]))).
      unfold _is_single_backend. rewrite Hs. simpl.
      unfold failure_entry. now rewrite He.
Qed.

(** *** create_run *)

Lemma create_on_secondary_ok
    (answer : NeptuneBackend -> option string -> option string -> Result ApiExperiment)
    (clock : Z -> Time) (primary_result : ApiExperiment) :
  worker_spec (create_on_secondary answer clock primary_result)
    (fun s =>
       match answer (backend s) (Some (id primary_result))
                    (Some (sys_id primary_result)) with
       | Ok r => (index s, Some r, None)
       | Raise e => (index s, None, Some (type_name e ++ ": " ++ str e)%string)
       end)
    (fun s => CallCreateRun (backend s) (Some (id primary_result))
                            (Some (sys_id primary_result))).
Proof.
  intros s mb. unfold create_on_secondary. unfold_disp.
  destruct (answer (backend s) _ _) as [r | e]; simpl.
  - destruct (transition_success_shape (index s) (clock (index s))
                (record_call (CallCreateRun (backend s) (Some (id primary_result))
                                (Some (sys_id primary_result))) mb))
      as (mb' & Heq & Hsh & Hc).
    unfold _transition_on_success, modify in Heq. injection Heq as Heq.
    rewrite Heq. exists mb'. split; [reflexivity |]. split.
    + eapply same_shape_trans; [apply record_call_shape | exact Hsh].
    + now rewrite Hc.
  - destruct (transition_failure_shape (index s) e
                (record_call (CallCreateRun (backend s) (Some (id primary_result))
                                (Some (sys_id primary_result))) mb))
      as (mb' & Heq & Hsh & Hc).
    unfold _transition_on_failure, modify in Heq. injection Heq as Heq.
    rewrite Heq. exists mb'. split; [reflexivity |]. split.
    + eapply same_shape_trans; [apply record_call_shape | exact Hsh].
    + now rewrite Hc.
Qed.

Lemma create_run_primary_ok
    (answer : NeptuneBackend -> option string -> option string -> Result ApiExperiment)
    (clock : Z -> Time)
    (as_completed : list (BackendState Time) -> list (BackendState Time))
    (deadline : option nat) (ext_id ext_sys_id : option string)
    mb primary remaining exp :
  is_open mb ->
  _backend_states mb = primary :: remaining ->
  remaining <> [] ->
  answer (backend primary) ext_id ext_sys_id = Ok exp ->
  exists mb',
    create_run answer clock as_completed deadline ext_id ext_sys_id mb
    = (Ok exp, mb') /\
    calls mb'
    = calls mb ++ CallCreateRun (backend primary) ext_id ext_sys_id
        :: map (fun s => CallCreateRun (backend s) (Some (id exp)) (Some (sys_id exp)))
               (as_completed remaining).
Proof.
  intros [Hopen Hexec] Hstates Hrem Hexp. unfold create_run.
  unfold mbind at 1, disp_bind, bind. rewrite (check_not_closed_open _ Hopen).
  unfold mbind at 1, disp_bind, bind, get. rewrite Hstates, Hopen.
  set (c0 := CallCreateRun (backend primary) ext_id ext_sys_id).
  unfold_disp. rewrite Hexp. simpl.
  destruct (transition_success_shape (index primary) (clock (index primary))
              (record_call c0 mb)) as (mb1 & Heq & Hsh & Hc).
  unfold _transition_on_success, modify in Heq. injection Heq as Heq.
  rewrite Heq. destruct remaining as [| s2 rest]; [congruence |].
  assert (_executor_down mb1 = false) as Hexec1.
  { destruct Hsh as (_ & _ & Hx). simpl in Hx. congruence. }
  rewrite (submit_all_open (s2 :: rest) mb1 Hexec1).
  destruct (run_workers_spec _ _ _ (as_completed (s2 :: rest)) mb1
              (create_on_secondary_ok answer clock exp))
    as (mb2 & Hrun & _ & Hcalls).
  unfold_disp. rewrite Hrun. simpl. exists mb2. split; [reflexivity |].
  rewrite Hcalls, Hc. simpl. rewrite <- app_assoc. reflexivity.
Qed.

Lemma create_run_primary_fails
    (answer : NeptuneBackend -> option string -> option string -> Result ApiExperiment)
    (clock : Z -> Time)
    (as_completed : list (BackendState Time) -> list (BackendState Time))
    (deadline : option nat) (ext_id ext_sys_id : option string)
    mb primary remaining e :
  is_open mb ->
  _backend_states mb = primary :: remaining ->
  answer (backend primary) ext_id ext_sys_id = Raise e ->
  exists mb',
    create_run answer clock as_completed deadline ext_id ext_sys_id mb
    = (Raise (all_failed (_is_single_backend mb)
                         [BackendError (index primary) (inl e)]), mb') /\
    calls mb' = calls mb ++ [CallCreateRun (backend primary) ext_id ext_sys_id].
Proof.
  intros [Hopen Hexec] Hstates He. unfold create_run.
  unfold mbind at 1, disp_bind, bind. rewrite (check_not_closed_open _ Hopen).
  unfold mbind at 1, disp_bind, bind, get. rewrite Hstates, Hopen.
  set (c0 := CallCreateRun (backend primary) ext_id ext_sys_id).
  unfold_disp. rewrite He. simpl.
  destruct (transition_failure_shape (index primary) e (record_call c0 mb))
    as (mb1 & Heq & Hsh & Hc).
  unfold _transition_on_failure, modify in Heq. injection Heq as Heq.
  rewrite Heq.
  rewrite raise_all_failed_eq. simpl.
  rewrite (is_single_backend_shape (record_call c0 mb) mb1 Hsh).
  exists mb1. split; [reflexivity |]. now rewrite Hc.
Qed.

(** C3. With at least two backends on an open dispatcher: when the
    backend at position 0 returns an [ApiExperiment], [create_run]
    returns that experiment whatever the other backends answer, and
    after the primary's call every remaining backend is called once
    with [_external_id] and [_external_sys_id] set to the primary's
    [id] and [sys_id]; when the backend at position 0 raises, the call
    raises ([AllBackendsFailedError] with the primary's error) and no
    other backend is called. *)
Theorem C3_create_run
    (answer : NeptuneBackend -> option string -> option string -> Result ApiExperiment)
    (clock : Z -> Time)
    (as_completed : list (BackendState Time) -> list (BackendState Time))
    (deadline : option nat) (ext_id ext_sys_id : option string)
    mb primary remaining :
  is_open mb ->
  (forall l, Permutation (as_completed l) l) ->
  _backend_states mb = primary :: remaining ->
  remaining <> [] ->
  let run := create_run answer clock as_completed deadline ext_id ext_sys_id mb in
  (forall exp, answer (backend primary) ext_id ext_sys_id = Ok exp ->
     fst run = Ok exp /\
     exists secondary_calls,
       calls (snd run)
       = calls mb ++ CallCreateRun (backend primary) ext_id ext_sys_id
                  :: secondary_calls /\
       Permutation secondary_calls
         (map (fun s => CallCreateRun (backend s) (Some (id exp)) (Some (sys_id exp)))
              remaining)) /\
  (forall e, answer (backend primary) ext_id ext_sys_id = Raise e ->
     fst run = Raise (AllBackendsFailedError [BackendError (index primary) (inl e)]) /\
     calls (snd run)
     = calls mb ++ [CallCreateRun (backend primary) ext_id ext_sys_id]).
Proof.
  intros Hopen Hperm Hstates Hrem run. split.
  - intros exp Hexp.
    destruct (create_run_primary_ok answer clock as_completed deadline
                ext_id ext_sys_id mb primary remaining exp Hopen Hstates Hrem Hexp)
      as (mb' & Heq & Hcalls).
    subst run. rewrite Heq. simpl. split; [reflexivity |].
    eexists. split; [exact Hcalls |]. apply Permutation_map, Hperm.
  - intros e He.
    destruct (create_run_primary_fails answer clock as_completed deadline
                ext_id ext_sys_id mb primary remaining e Hopen Hstates He)
      as (mb' & Heq & Hcalls).
    subst run. rewrite Heq. simpl. split; [| exact Hcalls].
    unfold _is_single_backend. rewrite Hstates.
    destruct remaining; [congruence | reflexivity].
Qed.

(** *** After close *)





End DispatcherProperties.

(** ** The connection-retry wrapper *)

Section RetryProperties.
Import Daemon Daemon.ConnectionRetryWrapper.
Context {R : Type}.
Implicit Types (d : Daemon) (script : list (Round R)).














End RetryProperties.

(** ** The per-backend processor *)

Section ProcessorProperties.
Import Daemon AsyncOperationProcessor.
Context {Operation Time : Type}.
Implicit Types (p : Processor Operation Time)
               (evs : list (Event Operation)) (m : Monitor).

(** *** Rejecting after close *)

Lemma warn_once_fields message p :
  let p' := warn_once message p in
  _queue p' = _queue p /\ _last_version p' = _last_version p /\
  _operation_acceptance p' = _operation_acceptance p /\
  _consumed_version p' = _consumed_version p /\
  existsb (String.eqb message) (warned p') = true /\
  trace p' = trace p ++
    (if existsb (String.eqb message) (warned p) then []
     else [EvLog {| level := WARN_ONCE; msg := message; args := [] |}]).
Proof.
  unfold warn_once.
  destruct (existsb (String.eqb message) (warned p)) eqn:E; simpl.
  - rewrite app_nil_r. repeat split; auto.
  - rewrite String.eqb_refl. repeat split; auto.
Qed.

Lemma enqueue_rejecting op wait_ now observations then_ p :
  _operation_acceptance p = REJECTING ->
  enqueue_operation op wait_ now observations then_ p
  = (Returned tt, warn_once "Not accepting operations" p).
Proof. intros H. unfold enqueue_operation. now rewrite H. Qed.

Lemma enqueue_many_rejecting (ops : list (Operation * Time)) p :
  _operation_acceptance p = REJECTING ->
  let '(rs, p') := enqueue_many ops p in
  Forall (fun r => r = Returned tt) rs /\
  length rs = length ops /\
  _queue p' = _queue p /\ _last_version p' = _last_version p /\
  _operation_acceptance p' = REJECTING /\
  trace p' = trace p ++
    (match ops with
     | [] => []
     | _ :: _ =>
         if existsb (String.eqb "Not accepting operations") (warned p) then []
         else [EvLog not_accepting_record]
     end).
Proof.
  revert p. induction ops as [| [op now] ops IH]; intros p Hp; simpl.
  - rewrite app_nil_r. repeat split; auto.
  - rewrite (enqueue_rejecting _ _ _ _ _ _ Hp).
    destruct (warn_once_fields "Not accepting operations" p)
      as (Hq & Hv & Ha & _ & Hw & Ht).
    specialize (IH (warn_once "Not accepting operations" p)).
    destruct (enqueue_many ops (warn_once "Not accepting operations" p))
      as [rs p'].
    destruct IH as (Hrs & Hlen & Hq' & Hv' & Ha' & Ht'); [congruence |].
    repeat split; try congruence; [constructor; auto | simpl; congruence |].
    rewrite Ht', Ht, Hw, <- app_assoc. f_equal.
    destruct ops; now rewrite app_nil_r.
Qed.

(** C10. [close] puts the processor in the rejecting state, and on a
    rejecting processor every [enqueue_operation] call, with or
    without [wait], returns normally, leaves the queue and
    [_last_version] as they are and keeps the processor rejecting; over
    any sequence of such calls the only event is one ["Not accepting
    operations"] warning, issued by the first call unless the process
    has issued it before. *)
Theorem C10_enqueue_after_close p :
  _operation_acceptance (close p) = REJECTING /\
  _queue (close p) = _queue p /\
  (forall op wait_ now observations then_ (q : Processor Operation Time),
      _operation_acceptance q = REJECTING ->
      let run := enqueue_operation op wait_ now observations then_ q in
      fst run = Returned tt /\
      _queue (snd run) = _queue q /\
      _last_version (snd run) = _last_version q /\
      _operation_acceptance (snd run) = REJECTING) /\
  (forall ops,
      let run := enqueue_many ops (close p) in
      Forall (fun r => r = Returned tt) (fst run) /\
      length (fst run) = length ops /\
      _queue (snd run) = _queue p /\
      _last_version (snd run) = _last_version p /\
      trace (snd run) = trace (close p) ++
        (match ops with
         | [] => []
         | _ :: _ =>
             if existsb (String.eqb "Not accepting operations") (warned p)
             then [] else [EvLog not_accepting_record]
         end)).
Proof.
  split; [reflexivity |]. split; [reflexivity |]. split.
  - intros op wait_ now observations then_ q Hq run. subst run.
    rewrite (enqueue_rejecting _ _ _ _ _ _ Hq). simpl.
    destruct (warn_once_fields "Not accepting operations" q)
      as (H1 & H2 & H3 & _). repeat split; congruence.
  - intros ops run. subst run.
    pose proof (enqueue_many_rejecting ops (close p) eq_refl) as H.
    destruct (enqueue_many ops (close p)) as [rs p']. simpl.
    destruct H as (H1 & H2 & H3 & H4 & _ & H6). auto.
Qed.

(** *** Waiting for a version *)

Lemma terminal_apply a s : is_terminal s = true -> is_terminal (apply a s) = true.
Proof. destruct a, s; simpl; intros H; try discriminate; reflexivity. Qed.

Lemma terminal_after actions s :
  is_terminal s = true -> is_terminal (after actions s) = true.
Proof.
  revert s. induction actions as [| a actions IH]; intros s H; [exact H |].
  simpl. apply IH, terminal_apply, H.
Qed.

Lemma terminal_not_running s : is_terminal s = true -> is_running s = false.
Proof. destruct s; simpl; intros H; try discriminate; reflexivity. Qed.





(** *** Acknowledgements in process_batch *)



Lemma logs_only_refl p : logs_only p p.
Proof. exists []. rewrite app_nil_r. repeat split. constructor. Qed.

Lemma logs_only_trans p1 p2 p3 :
  logs_only p1 p2 -> logs_only p2 p3 -> logs_only p1 p3.
Proof.
  intros (l1 & H1 & T1 & Q1 & C1) (l2 & H2 & T2 & Q2 & C2).
  exists (l1 ++ l2). split; [now apply Forall_app |].
  rewrite T2, T1, <- app_assoc. repeat split; congruence.
Qed.

Lemma logs_only_emit r p : logs_only p (emit (EvLog r) p).
Proof. exists [EvLog r]. repeat split. now constructor. Qed.

Lemma backpressure_lifted_logs p : logs_only p (_check_queue_backpressure_lifted p).
Proof.
  unfold _check_queue_backpressure_lifted.
  destruct (_queue_threshold p =? 0); [apply logs_only_refl |].
  destruct (size (_queue p) <? _); [| apply logs_only_refl].
  eapply logs_only_trans; [apply logs_only_emit |].
  exists []. rewrite app_nil_r. repeat split. constructor.
Qed.

Lemma handle_errors_logs errors p : logs_only p (_handle_errors errors p).
Proof.
  revert p. induction errors as [| e errors IH]; intros p; simpl;
    [apply logs_only_refl |].
  destruct (contains _ _);
    (eapply logs_only_trans; [apply logs_only_emit | apply IH]).
Qed.


Lemma trace_emit (ev : Event Operation) p : trace (emit ev p) = trace p ++ [ev].
Proof. reflexivity. Qed.

Lemma consumed_emit (ev : Event Operation) p :
  _consumed_version (emit ev p) = _consumed_version p.
Proof. reflexivity. Qed.




End ProcessorProperties.

(** * The theorems on the scenarios *)

Section Scenarios.
Import Health Dispatcher Scenario.

(** Scenario B: the second backend fails three writes in a row. *)
Example scenario_B_health :
  let step mb := snd (execute_operations only_b0_writes clock reversed mb) in
  map health (_backend_states (step two))
  = [Healthy 10; Failing 1 down 0] /\
  map health (_backend_states (step (step two)))
  = [Healthy 10; Failing 2 down 0] /\
  map health (_backend_states (step (step (step two))))
  = [Healthy 10; Degraded 3 down] /\
  fst (execute_operations only_b0_writes clock reversed two)
  = Ok (3, [BackendError 1 (inl down)]).
Proof. repeat split; reflexivity. Qed.

(** Scenario C: the identifiers of the primary reach the secondaries. *)
Example scenario_C_create_run :
  let run := create_run creates clock reversed None None None three in
  fst run = Ok u1 /\
  calls (snd run)
  = [CallCreateRun b0 None None;
     CallCreateRun b2 (Some "U1") (Some "RUN-1");
     CallCreateRun b1 (Some "U1") (Some "RUN-1")] /\
  map health (_backend_states (snd run))
  = [Healthy 10; Healthy 11; Failing 1 down 0].
Proof. repeat split; reflexivity. Qed.

(** Scenario F: both backends raise on a read. *)
Example scenario_F_all_fail :
  let run := read_operation (A:=string) all_down clock two in
  fst run = Raise (AllBackendsFailedError
                     [BackendError 0 (inl down); BackendError 1 (inl down)]) /\
  map health (_backend_states (snd run))
  = [Failing 1 down 0; Failing 1 down 0] /\
  fst (read_operation (A:=string) all_down clock one) = Raise down.
Proof. repeat split; reflexivity. Qed.

Lemma reversed_perm l : Permutation (reversed l) l.
Proof. symmetry. apply Permutation_rev. Qed.

(** C2 on scenario B. *)
Lemma C2_execute_operations_witness :
  is_open two /\
  (exists s, In s (_get_routable_backends two) /\
             is_ok (only_b0_writes (backend s)) = true) /\
  exists max_processed backend_errors,
    fst (execute_operations only_b0_writes clock reversed two)
    = Ok (max_processed, backend_errors) /\
    Permutation backend_errors
      (failures only_b0_writes (_get_routable_backends two)).
Proof.
  assert (is_open two) as Hopen by (split; reflexivity).
  assert (exists s, In s (_get_routable_backends two) /\
                    is_ok (only_b0_writes (backend s)) = true) as Hone.
  { eexists. split; [left; reflexivity | reflexivity]. }
  split; [exact Hopen |]. split; [exact Hone |].
  destruct (C2_execute_operations only_b0_writes clock reversed two
              Hopen reversed_perm Hone)
    as (m & errs & Heq & _ & _ & Hperm & _).
  exists m, errs. split; [exact Heq | exact Hperm].
Defined.

(** C3 on scenario C. *)
Lemma C3_create_run_witness :
  is_open three /\
  creates (backend {| backend := b0; index := 0; health := Healthy 0 |}) None None
  = Ok u1 /\
  fst (create_run creates clock reversed None None None three) = Ok u1.
Proof.
  assert (is_open three) as Hopen by (split; reflexivity).
  split; [exact Hopen |]. split; [reflexivity |].
  refine (proj1 (proj1 (C3_create_run creates clock reversed None None None three
                          _ _ Hopen reversed_perm eq_refl _) u1 eq_refl)).
  discriminate.
Defined.

(** C4 with a degraded first backend, and with every backend degraded. *)
Lemma C4_routable_backends_witness :
  routable_states (_backend_states first_degraded) <> [] /\
  _get_routable_backends first_degraded
  = routable_states (_backend_states first_degraded) /\
  routable_states (_backend_states all_degraded) = [] /\
  _get_routable_backends all_degraded = _backend_states all_degraded.
Proof.
  assert (routable_states (_backend_states first_degraded) <> []) as H1
      by discriminate.
  assert (routable_states (_backend_states all_degraded) = []) as H2
      by reflexivity.
  split; [exact H1 |]. split; [| split; [exact H2 |]].
  - exact (proj1 (proj2 (proj2 (C4_routable_backends first_degraded))) H1).
  - exact (proj2 (proj2 (proj2 (C4_routable_backends all_degraded))) H2).
Defined.

(** C9 on scenario F. *)
Lemma C9_all_backends_failed_witness :
  is_open two /\
  Forall (fails (A:=string) all_down) (_get_routable_backends two) /\
  _is_single_backend two = false /\
  fst (read_operation (A:=string) all_down clock two)
  = Raise (AllBackendsFailedError
             (failures (A:=string) all_down (_get_routable_backends two))).
Proof.
  assert (is_open two) as Hopen by (split; reflexivity).
  assert (Forall (fails (A:=string) all_down) (_get_routable_backends two))
    as Hall by (repeat constructor).
  split; [exact Hopen |]. split; [exact Hall |]. split; [reflexivity |].
  exact (proj1 (proj2 (proj1 (C9_all_backends_failed (A:=string)
                                all_down all_down clock reversed two
                                Hopen reversed_perm) Hall)) eq_refl).
Defined.



(** *** The retry wrapper and the processor *)

(** Eight connection losses, then a success. *)
Example eight_losses_then_success :
  let run := Daemon.ConnectionRetryWrapper.wrapper "kill"
               (map Daemon.ConnectionRetryWrapper.lost eight_losses
                ++ [Daemon.ConnectionRetryWrapper.succeeds tt]) consumer in
  fst run = Returned (Some tt) /\
  Daemon.waits (snd run) = [2; 4; 8; 16; 32; 64; 120; 120] /\
  Daemon.last_backoff_time (snd run) = 0 /\
  last (Daemon.log (snd run))
  = Some {| level := INFO; msg := "%sCommunication restored!";
            args := [ArgStr "[backend 1] "] |}.
Proof. repeat split; reflexivity. Qed.

(** An interrupt during the second wait ends the loop without result. *)
Example interrupted_while_waiting :
  let lost := Daemon.ConnectionRetryWrapper.lost (R:=unit) "ConnectionError" in
  let lost_then_interrupted : Daemon.ConnectionRetryWrapper.Round unit :=
    {| Daemon.ConnectionRetryWrapper.attempt :=
         Raise (NeptuneConnectionLostException "ConnectionError");
       Daemon.ConnectionRetryWrapper.interrupted_in_call := false;
       Daemon.ConnectionRetryWrapper.interrupted_in_wait := true |} in
  let run := Daemon.ConnectionRetryWrapper.wrapper "kill"
               [lost; lost_then_interrupted; lost] consumer in
  fst run = Returned None /\
  Daemon.waits (snd run) = [2; 4] /\
  Daemon.last_backoff_time (snd run) = 4.
Proof. repeat split; reflexivity. Qed.


(** Scenario A with a backend that takes the batch in two calls. *)
Example scenario_A_process_batch :
  let run := AsyncOperationProcessor.process_batch
               [Ok (2, []); Ok (1, [partial])] ["A"; "B"; "C"] 3 (Some 3)
               processor in
  fst run = Returned tt /\
  AsyncOperationProcessor._consumed_version (snd run) = 3 /\
  AsyncOperationProcessor.size (AsyncOperationProcessor._queue (snd run)) = 0 /\
  AsyncOperationProcessor.trace (snd run)
  = AsyncOperationProcessor.trace processor ++
    [AsyncOperationProcessor.EvSignal AsyncOperationProcessor.BatchLagSignal;
     AsyncOperationProcessor.EvExecute ["A"; "B"; "C"];
     AsyncOperationProcessor.EvExecuted 2;
     AsyncOperationProcessor.EvSignal AsyncOperationProcessor.BatchProcessedSignal;
     AsyncOperationProcessor.EvAcquire;
     AsyncOperationProcessor.EvAck 2;
     AsyncOperationProcessor.EvConsumed 2;
     AsyncOperationProcessor.EvRelease;
     AsyncOperationProcessor.EvExecute ["C"];
     AsyncOperationProcessor.EvExecuted 1;
     AsyncOperationProcessor.EvSignal AsyncOperationProcessor.BatchProcessedSignal;
     AsyncOperationProcessor.EvAcquire;
     AsyncOperationProcessor.EvAck 3;
     AsyncOperationProcessor.EvLog
       {| level := ERROR;
          msg := "Error occurred during asynchronous operation processing: %s";
          args := [ArgStr "attribute type mismatch"] |};
     AsyncOperationProcessor.EvConsumed 3;
     AsyncOperationProcessor.EvNotifyAll;
     AsyncOperationProcessor.EvRelease].
Proof. repeat split; reflexivity. Qed.

(** The observer rejects an acknowledgement made before any return. *)
Example observer_rejects_early_ack :
  AsyncOperationProcessor.observe_events (Operation:=string) 0
    AsyncOperationProcessor.monitor0
    [AsyncOperationProcessor.EvAcquire; AsyncOperationProcessor.EvAck 0;
     AsyncOperationProcessor.EvConsumed 0; AsyncOperationProcessor.EvRelease]
  = None.
Proof. reflexivity. Qed.



(** While the consumer runs and version 3 is not consumed, [wait]
    stays blocked; once it is consumed, [wait] returns. *)
Example wait_blocks_then_returns :
  fst (AsyncOperationProcessor.wait
         [(0, Daemon.WORKING); (2, Daemon.PAUSED)] [] processor) = Pending /\
  fst (AsyncOperationProcessor.wait
         [(0, Daemon.WORKING); (3, Daemon.WORKING)] [] processor) = Returned tt.
Proof. split; reflexivity. Qed.

Lemma C10_enqueue_after_close_witness :
  let closed := AsyncOperationProcessor.close processor in
  let run := AsyncOperationProcessor.enqueue_operation "D" true 4 [] [] closed in
  AsyncOperationProcessor._operation_acceptance closed
  = AsyncOperationProcessor.REJECTING /\
  fst run = Returned tt /\
  AsyncOperationProcessor._queue (snd run)
  = AsyncOperationProcessor._queue closed /\
  AsyncOperationProcessor._last_version (snd run) = 3.
Proof.
  intros closed run.
  pose proof (proj1 (proj2 (proj2 (C10_enqueue_after_close processor)))
                "D" true 4 [] [] closed eq_refl) as (H1 & H2 & H3 & _).
  split; [reflexivity |]. split; [exact H1 |]. split; [exact H2 |].
  exact H3.
Defined.

End Scenarios.

(** * Further properties of the dispatcher *)

Section DispatcherFurther.
Import Health Dispatcher HealthCheck.
Context {Time : Type}.
Implicit Types (mb : MultiBackend Time) (s state : BackendState Time)
               (l states : list (BackendState Time)).

Lemma find_from_some k l idx pos :
  _find_state_position_from k l idx = Some pos ->
  exists i, pos = (k + i)%nat /\ first_position l idx i.
Proof.
  revert k. induction l as [| s l IH]; intros k H; simpl in H; [discriminate |].
  destruct (Z.eqb_spec (index s) idx) as [Heq | Hne].
  - injection H as <-. exists 0%nat. split; [lia |]. split.
    + exists s. auto.
    + intros j s' Hj. lia.
  - destruct (IH _ H) as (i & -> & (s0 & Hs0 & Hi) & Hfirst).
    exists (S i). split; [lia |]. split.
    + exists s0. auto.
    + intros [| j] s' Hj Hl; simpl in Hl.
      * injection Hl as <-. exact Hne.
      * apply (Hfirst j s'); [lia | exact Hl].
Qed.

Lemma find_from_none k l idx :
  _find_state_position_from k l idx = None <-> ~ In idx (map index l).
Proof.
  revert k. induction l as [| s l IH]; intros k; simpl; [tauto |].
  destruct (Z.eqb_spec (index s) idx) as [Heq | Hne].
  - split; [discriminate | tauto].
  - rewrite IH. tauto.
Qed.

Lemma first_position_unique l idx i j :
  first_position l idx i -> first_position l idx j -> i = j.
Proof.
  intros [(s & Hs & Hi) Hfi] [(s' & Hs' & Hj) Hfj].
  destruct (Nat.lt_trichotomy i j) as [Hlt | [Heq | Hgt]]; [| exact Heq |].
  - exfalso. exact (Hfj i s Hlt Hs Hi).
  - exfalso. exact (Hfi j s' Hgt Hs' Hj).
Qed.

Lemma find_state_position_spec mb idx :
  (forall pos, _find_state_position mb idx = Some pos <->
               first_position (_backend_states mb) idx pos) /\
  (_find_state_position mb idx = None <->
   ~ In idx (map index (_backend_states mb))).
Proof.
  unfold _find_state_position. split; [| apply find_from_none].
  intros pos. split.
  - intros H. destruct (find_from_some _ _ _ _ H) as (i & -> & Hi). exact Hi.
  - intros Hpos.
    destruct (_find_state_position_from 0 (_backend_states mb) idx) as [p |] eqn:E.
    + destruct (find_from_some _ _ _ _ E) as (i & -> & Hi). simpl.
      f_equal. exact (first_position_unique _ _ _ _ Hi Hpos).
    + exfalso. apply find_from_none in E. apply E.
      destruct Hpos as [(s & Hs & Hi) _]. rewrite <- Hi.
      apply in_map. apply list_elem_of_In. eapply list_elem_of_lookup_2. exact Hs.
Qed.

(** X1. [_find_state_position] returns the first position whose state
    has the given original index, and [None] exactly when no state has
    it. *)
Theorem X1_find_state_position mb idx :
  (forall pos, _find_state_position mb idx = Some pos <->
               first_position (_backend_states mb) idx pos) /\
  (_find_state_position mb idx = None <->
   ~ In idx (map index (_backend_states mb))).
Proof. exact (find_state_position_spec mb idx). Qed.

Lemma update_first_insert idx f l i cur :
  first_position l idx i -> l !! i = Some cur ->
  update_first idx f l = <[i := with_health (f (health cur)) cur]> l.
Proof.
  revert i. induction l as [| s l IH]; intros i Hfirst Hcur; [discriminate |].
  simpl. destruct (Z.eqb_spec (index s) idx) as [Heq | Hne].
  - destruct i as [| i].
    + simpl in Hcur. injection Hcur as <-. reflexivity.
    + exfalso. destruct Hfirst as [_ Hf]. apply (Hf 0%nat s); [lia | reflexivity | exact Heq].
  - destruct i as [| i].
    + exfalso. simpl in Hcur. injection Hcur as <-.
      destruct Hfirst as [(s' & Hs' & Hi) _]. simpl in Hs'. congruence.
    + simpl. f_equal. apply IH; [| exact Hcur].
      destruct Hfirst as [(s' & Hs' & Hi) Hf]. split; [exists s'; auto |].
      intros j s'' Hj Hl. apply (Hf (S j) s''); [lia | exact Hl].
Qed.

Lemma update_first_absent idx f l :
  ~ In idx (map index l) -> update_first idx f l = l.
Proof.
  induction l as [| s l IH]; intros H; simpl in *; [reflexivity |].
  destruct (Z.eqb_spec (index s) idx) as [Heq | Hne]; [tauto |].
  f_equal. apply IH. tauto.
Qed.

Lemma update_health_states idx f mb :
  _backend_states (update_health idx f mb)
  = update_first idx f (_backend_states mb).
Proof.
  unfold update_health.
  destruct (_find_state_position mb idx) as [pos |] eqn:E.
  - apply (proj1 (find_state_position_spec mb idx)) in E.
    destruct E as [(s & Hs & Hi) Hf] eqn:E'. rewrite Hs. simpl.
    symmetry. apply update_first_insert; [| exact Hs].
    split; [exists s; auto | exact Hf].
  - apply (proj2 (find_state_position_spec mb idx)) in E.
    now rewrite update_first_absent.
Qed.

Lemma update_first_length idx f l : length (update_first idx f l) = length l.
Proof.
  induction l as [| s l IH]; simpl; [reflexivity |].
  destruct (index s =? idx); simpl; congruence.
Qed.

Lemma update_first_identity idx f l :
  map (fun s => (backend s, index s)) (update_first idx f l)
  = map (fun s => (backend s, index s)) l.
Proof.
  induction l as [| s l IH]; simpl; [reflexivity |].
  destruct (index s =? idx); simpl; congruence.
Qed.

Lemma update_first_lookup idx f mb pos s :
  _backend_states mb !! pos = Some s ->
  update_first idx f (_backend_states mb) !! pos
  = Some (if decide (_find_state_position mb idx = Some pos)
          then with_health (f (health s)) s else s).
Proof.
  intros Hs. destruct (_find_state_position mb idx) as [p |] eqn:E.
  - apply (proj1 (find_state_position_spec mb idx)) in E.
    pose proof E as [(cur & Hcur & _) _].
    rewrite (update_first_insert idx f _ p cur E Hcur).
    destruct (decide (Some p = Some pos)) as [[= ->] | Hne].
    + rewrite list_lookup_insert_eq by (eapply lookup_lt_Some; eauto).
      congruence.
    + rewrite list_lookup_insert_ne by congruence. exact Hs.
  - apply (proj2 (find_state_position_spec mb idx)) in E.
    rewrite (update_first_absent _ _ _ E).
    destruct (decide (None = Some pos)); [discriminate | exact Hs].
Qed.

(** X2. A health transition of the dispatcher rewrites one slot only:
    after [_transition_on_success] or [_transition_on_failure] for an
    original index, the state list has the same length, the slot at
    the position [_find_state_position] gives (the first one with that
    index) keeps its backend and index and has the health computed
    from its old health, and every other slot is untouched; flags and
    call log are unchanged, and for an index that no state has the
    dispatcher is left as it is. *)
Theorem X2_transition_touches_one_slot mb idx :
  (forall now pos s,
      _backend_states mb !! pos = Some s ->
      _backend_states (snd (_transition_on_success idx now mb)) !! pos
      = Some (if decide (_find_state_position mb idx = Some pos)
              then with_health (compute_success_health now) s else s)) /\
  (forall error pos s,
      _backend_states mb !! pos = Some s ->
      _backend_states (snd (_transition_on_failure idx error mb)) !! pos
      = Some (if decide (_find_state_position mb idx = Some pos)
              then with_health (compute_failure_health (health s) error) s
              else s)) /\
  (forall f, same_shape mb (update_health idx f mb) /\
             calls (update_health idx f mb) = calls mb) /\
  (~ In idx (map index (_backend_states mb)) ->
   forall now error,
     snd (_transition_on_success idx now mb) = mb /\
     snd (_transition_on_failure idx error mb) = mb).
Proof.
  split; [| split; [| split]].
  - intros now pos s Hs. simpl. rewrite update_health_states.
    now rewrite (update_first_lookup idx _ mb pos s Hs).
  - intros error pos s Hs. simpl. rewrite update_health_states.
    now rewrite (update_first_lookup idx _ mb pos s Hs).
  - intros f. split; [apply update_health_shape | apply update_health_calls].
  - intros Habs now error. simpl. unfold update_health.
    apply (proj2 (find_state_position_spec mb idx)) in Habs.
    rewrite Habs. auto.
Qed.

(** X3. [mark_backend_disconnected] only moves a [Healthy] backend: the
    first state with the given index becomes [Degraded] with
    [FAILURE_THRESHOLD] failures and the given error (["Connection
    lost"] by default) when it is [Healthy], and keeps its health when
    it is [Failing] or [Degraded]; every other slot, the flags and the
    call log are unchanged, and the call never raises. *)
Theorem X3_mark_backend_disconnected mb idx (error : option Exception) :
  let run := mark_backend_disconnected idx error mb in
  let cause := match error with
               | Some e => e
               | None => GenericError "Exception" "Connection lost"
               end in
  fst run = Ok tt /\
  same_shape mb (snd run) /\
  calls (snd run) = calls mb /\
  (forall pos s,
      _backend_states mb !! pos = Some s ->
      _backend_states (snd run) !! pos
      = Some (if decide (_find_state_position mb idx = Some pos)
              then match health s with
                   | Healthy _ => with_health (Degraded 3 cause) s
                   | _ => s
                   end
              else s)).
Proof.
  intros run cause. subst run. unfold mark_backend_disconnected. simpl.
  split; [reflexivity |]. split; [apply update_health_shape |].
  split; [apply update_health_calls |].
  intros pos s Hs. rewrite update_health_states.
  rewrite (update_first_lookup idx _ mb pos s Hs). f_equal.
  destruct (decide _); [| reflexivity].
  destruct s as [b i [t | n e0 t | n e0]]; reflexivity.
Qed.

(** *** The effect of a batch of outcomes on the health states *)

Lemma update_first_map idx f l :
  List.NoDup (map index l) ->
  update_first idx f l
  = map (fun s => if index s =? idx then with_health (f (health s)) s else s) l.
Proof.
  induction l as [| s l IH]; intros Hnd; simpl; [reflexivity |].
  simpl in Hnd. apply List.NoDup_cons_iff in Hnd as [Hnotin Hnd].
  destruct (Z.eqb_spec (index s) idx) as [Heq | Hne].
  - f_equal. rewrite <- (map_id l) at 1. apply map_ext_in.
    intros s' Hs'. destruct (Z.eqb_spec (index s') idx) as [Heq' | _];
      [| reflexivity].
    exfalso. apply Hnotin. rewrite Heq, <- Heq'. now apply in_map.
  - f_equal. now apply IH.
Qed.

Lemma transitions_states {A} (answer : NeptuneBackend -> Result A) clock l mb :
  _backend_states (transitions answer clock l mb)
  = fold_left (fun st s => update_first (index s) (step_of answer clock s) st)
              l (_backend_states mb).
Proof.
  revert mb. induction l as [| s l IH]; intros mb; [reflexivity |].
  unfold transitions in *. simpl. rewrite IH, update_health_states. reflexivity.
Qed.

Lemma transitions_shape {A} (answer : NeptuneBackend -> Result A) clock l mb :
  same_shape mb (transitions answer clock l mb).
Proof.
  revert mb. induction l as [| s l IH]; intros mb; [apply same_shape_refl |].
  unfold transitions in *. simpl.
  eapply same_shape_trans; [apply update_health_shape | apply IH].
Qed.

Lemma map_fst_snd_identity l l' :
  map (fun s => (backend s, index s)) l = map (fun s => (backend s, index s)) l' ->
  map index l = map index l' /\
  (forall s0, In s0 l -> exists s1, In s1 l' /\ backend s1 = backend s0
                                    /\ index s1 = index s0).
Proof.
  revert l'. induction l as [| s l IH]; intros [| s' l'] H; simpl in *;
    try discriminate; [split; [reflexivity | tauto] |].
  injection H as Hb Hi Hrest. destruct (IH _ Hrest) as [Hm Hin].
  split; [congruence |]. intros s0 [<- | Hs0].
  - exists s'. auto.
  - destruct (Hin s0 Hs0) as (s1 & H1 & H2 & H3). exists s1. auto.
Qed.

Lemma fold_advanced {A} (answer : NeptuneBackend -> Result A) clock l states :
  List.NoDup (map index states) -> List.NoDup (map index l) -> compatible l states ->
  fold_left (fun st s => update_first (index s) (step_of answer clock s) st)
            l states
  = advanced answer clock (map index l) states.
Proof.
  revert states. induction l as [| s l IH]; intros states Hnd Hl Hc; simpl.
  - unfold advanced. simpl. now rewrite map_id.
  - simpl in Hl. apply List.NoDup_cons_iff in Hl as [Hnotin Hl].
    set (states1 := update_first (index s) (step_of answer clock s) states).
    pose proof (update_first_identity (index s) (step_of answer clock s) states)
      as Hid. fold states1 in Hid.
    destruct (map_fst_snd_identity _ _ Hid) as [Hidx Hback].
    rewrite IH.
    + unfold states1. rewrite (update_first_map _ _ _ Hnd).
      unfold advanced. rewrite map_map. apply map_ext_in. intros s0 Hs0.
      unfold has_index. simpl.
      destruct (Z.eqb_spec (index s0) (index s)) as [Heq | Hne]; simpl.
      * assert (existsb (Z.eqb (index s0)) (map index l) = false) as ->.
        { apply not_true_is_false. intros Hex. apply existsb_exists in Hex.
          destruct Hex as (i & Hi & Hie). apply Z.eqb_eq in Hie.
          apply Hnotin. congruence. }
        unfold outcome_health, step_of.
        rewrite (Hc s s0 (or_introl eq_refl) Hs0 Heq), Heq. reflexivity.
      * reflexivity.
    + now rewrite Hidx.
    + exact Hl.
    + intros s' s1 Hs' Hs1 Hi. destruct (Hback s1 Hs1) as (s2 & H2 & Hb2 & Hi2).
      rewrite <- Hb2. apply (Hc s' s2); [now right | exact H2 | congruence].
Qed.

Lemma compatible_incl l states :
  List.NoDup (map index states) -> incl l states -> compatible l states.
Proof.
  intros Hnd Hincl s s0 Hs Hs0 Hi. apply Hincl in Hs.
  assert (s0 = s) as ->; [| reflexivity].
  clear Hincl. induction states as [| x xs IH]; [destruct Hs |].
  simpl in Hnd. apply List.NoDup_cons_iff in Hnd as [Hnotin Hnd].
  destruct Hs as [-> | Hs], Hs0 as [-> | Hs0]; auto.
  - exfalso. apply Hnotin. rewrite <- Hi. now apply in_map.
  - exfalso. apply Hnotin. rewrite Hi. now apply in_map.
Qed.

Lemma advanced_perm {A} (answer : NeptuneBackend -> Result A) clock idxs idxs' states :
  Permutation idxs idxs' ->
  advanced answer clock idxs states = advanced answer clock idxs' states.
Proof.
  intros Hp. unfold advanced. apply map_ext. intros s. unfold has_index.
  assert (existsb (Z.eqb (index s)) idxs = existsb (Z.eqb (index s)) idxs') as ->;
    [| reflexivity].
  apply eq_true_iff_eq. rewrite !existsb_exists.
  split; intros (i & Hi & He); exists i; split; auto.
  - now apply (Permutation_in _ Hp).
  - now apply (Permutation_in _ (Permutation_sym Hp)).
Qed.

Lemma update_health_states_ext idx f mb mb' :
  _backend_states mb = _backend_states mb' ->
  _backend_states (update_health idx f mb)
  = _backend_states (update_health idx f mb').
Proof. intros H. now rewrite !update_health_states, H. Qed.

Lemma run_workers_transitions {A} (c : NeptuneBackend -> Call)
    (answer : NeptuneBackend -> Result A) clock l mb :
  _backend_states (snd (run_workers (worker c answer clock) l mb))
  = _backend_states (transitions answer clock l mb).
Proof.
  rewrite transitions_states. revert mb.
  induction l as [| s l IH]; intros mb; [reflexivity |].
  simpl. unfold mbind, disp_bind, bind.
  destruct (worker c answer clock s mb) as [r mb1] eqn:Ew.
  assert (r = Ok (worker_result answer s) /\
          _backend_states mb1
          = update_first (index s) (step_of answer clock s) (_backend_states mb))
    as [-> Hst].
  { revert Ew. unfold worker, worker_result, step_of.
    unfold mbind, mret, disp_bind, disp_ret, bind, ret, try_except, call_backend,
      _transition_on_success, _transition_on_failure, modify.
    destruct (answer (backend s)) as [a | e]; simpl; intros [= <- <-];
      (split; [reflexivity |]); rewrite update_health_states; reflexivity. }
  specialize (IH mb1).
  destruct (run_workers (worker c answer clock) l mb1) as [[rs | e] mb2];
    simpl in *; rewrite IH, Hst; reflexivity.
Qed.

Lemma fold_rewritten g idxs states :
  List.NoDup (map index states) -> List.NoDup idxs ->
  fold_left (fun st idx => update_first idx (g idx) st) idxs states
  = rewritten g idxs states.
Proof.
  revert states. induction idxs as [| idx idxs IH]; intros states Hnd Hl; simpl.
  - unfold rewritten. simpl. now rewrite map_id.
  - apply List.NoDup_cons_iff in Hl as [Hnotin Hl].
    rewrite IH; [| | exact Hl].
    + rewrite (update_first_map _ _ _ Hnd). unfold rewritten.
      rewrite map_map. apply map_ext. intros s0. unfold has_index. simpl.
      destruct (Z.eqb_spec (index s0) idx) as [Heq | Hne]; simpl; [| reflexivity].
      assert (existsb (Z.eqb (index s0)) idxs = false) as ->; [| now rewrite Heq].
      apply not_true_is_false. intros Hex. apply existsb_exists in Hex.
      destruct Hex as (i & Hi & Hie). apply Z.eqb_eq in Hie. congruence.
    + pose proof (update_first_identity idx (g idx) states) as Hid.
      destruct (map_fst_snd_identity _ _ Hid) as [Hidx _]. now rewrite Hidx.
Qed.

Lemma NoDup_map_filter {X Y} (f : X -> Y) (p : X -> bool) (l : list X) :
  List.NoDup (map f l) -> List.NoDup (map f (List.filter p l)).
Proof.
  induction l as [| x l IH]; intros H; simpl in *; [constructor |].
  apply List.NoDup_cons_iff in H as [Hnotin H].
  destruct (p x); simpl; [| auto]. constructor; [| auto].
  intros Hin. apply Hnotin. apply in_map_iff in Hin as (y & Hy & Hin).
  apply filter_In in Hin as [Hin _]. rewrite <- Hy. now apply in_map.
Qed.

Lemma routable_incl mb : incl (_get_routable_backends mb) (_backend_states mb).
Proof.
  unfold _get_routable_backends.
  destruct (routable_states (_backend_states mb)) as [| s l] eqn:E;
    [apply incl_refl |].
  intros x Hx. rewrite <- E in Hx. apply routable_states_In in Hx. tauto.
Qed.

Lemma routable_NoDup mb :
  distinct_indices mb -> List.NoDup (map index (_get_routable_backends mb)).
Proof.
  intros Hnd. unfold _get_routable_backends.
  destruct (routable_states (_backend_states mb)) as [| s l] eqn:E; [exact Hnd |].
  rewrite <- E. now apply NoDup_map_filter.
Qed.

Lemma transitions_advanced {A} (answer : NeptuneBackend -> Result A) clock l mb :
  distinct_indices mb -> List.NoDup (map index l) ->
  incl l (_backend_states mb) ->
  _backend_states (transitions answer clock l mb)
  = advanced answer clock (map index l) (_backend_states mb).
Proof.
  intros Hnd Hl Hincl. rewrite transitions_states.
  apply fold_advanced; auto. now apply compatible_incl.
Qed.

Lemma execute_operations_states
    (answer : NeptuneBackend -> Result (Z * list Exception))
    (clock : Z -> Time)
    (as_completed : list (BackendState Time) -> list (BackendState Time)) mb :
  is_open mb ->
  (forall l, Permutation (as_completed l) l) ->
  distinct_indices mb ->
  _backend_states (snd (execute_operations answer clock as_completed mb))
  = advanced answer clock (map index (_get_routable_backends mb))
             (_backend_states mb).
Proof.
  intros [Hopen Hexec] Hperm Hnd. unfold execute_operations.
  unfold mbind at 1, disp_bind, bind. rewrite (check_not_closed_open _ Hopen).
  unfold mbind at 1, disp_bind, bind, get. rewrite Hopen.
  unfold mbind at 1, disp_bind, bind. rewrite (submit_all_open _ _ Hexec).
  unfold mbind at 1, disp_bind, bind.
  set (l := as_completed (_get_routable_backends mb)).
  pose proof (run_workers_transitions CallExecuteOperations answer clock l mb) as Hst.
  destruct (run_workers_spec _ _ _ l mb
              (worker_ok CallExecuteOperations answer clock))
    as (mb' & Hrun & _). rewrite Hrun in *. simpl in Hst.
  rewrite collect_spec. simpl.
  assert (_backend_states mb'
          = advanced answer clock (map index (_get_routable_backends mb))
                     (_backend_states mb)) as Hgoal.
  { rewrite Hst, transitions_advanced; auto.
    - apply advanced_perm, Permutation_map, Hperm.
    - apply (Permutation_NoDup (Permutation_sym (Permutation_map index (Hperm _)))).
      now apply routable_NoDup.
    - intros x Hx. apply (Permutation_in _ (Hperm _)) in Hx.
      now apply routable_incl. }
  destruct (successes answer l) as [| r rs].
  - rewrite raise_all_failed_eq. exact Hgoal.
  - exact Hgoal.
Qed.

(** X4. With pairwise different original indices, [execute_operations]
    on an open dispatcher advances the health of exactly the backends
    it used, each by the outcome of its own call: a backend that
    returned is [Healthy], a backend that raised took one failure step
    from its previous health, and the backends left out (degraded while
    another one is routable) keep their state, whatever the order in
    which the workers finish. *)
Theorem X4_execute_operations_health
    (answer : NeptuneBackend -> Result (Z * list Exception))
    (clock : Z -> Time)
    (as_completed : list (BackendState Time) -> list (BackendState Time)) mb :
  is_open mb ->
  (forall l, Permutation (as_completed l) l) ->
  distinct_indices mb ->
  _backend_states (snd (execute_operations answer clock as_completed mb))
  = advanced answer clock (map index (_get_routable_backends mb))
             (_backend_states mb).
Proof. apply execute_operations_states. Qed.

(** *** Reads: the first backend that answers *)

Lemma try_backends_first_success {A} (answer : NeptuneBackend -> Result A)
    (clock : Z -> Time) before s later r errors mb :
  Forall (fails answer) before -> answer (backend s) = Ok r ->
  exists mb',
    try_backends answer clock (before ++ s :: later) errors mb = (Ok r, mb') /\
    calls mb' = calls mb ++ map (fun s => CallRead (backend s)) (before ++ [s]) /\
    _backend_states mb'
    = _backend_states (transitions answer clock (before ++ [s]) mb).
Proof.
  intros Hall Hr. revert errors mb.
  induction Hall as [| s0 before Hs0 Hall IH]; intros errors mb; simpl.
  - unfold mbind, mret, disp_bind, disp_ret, bind, ret, try_except, call_backend.
    rewrite Hr. simpl. eexists. split; [reflexivity |].
    split; [now rewrite update_health_calls |].
    unfold transitions. simpl. unfold step_of. rewrite Hr.
    now apply update_health_states_ext.
  - unfold fails in Hs0.
    unfold mbind at 1, mret, disp_bind, disp_ret, bind, ret, try_except,
      call_backend.
    destruct (answer (backend s0)) as [r0 | e] eqn:E0; [discriminate |]. simpl.
    unfold mbind at 1, disp_bind, bind, _transition_on_failure, modify.
    destruct (IH (errors ++ [BackendError (index s0) (inl e)])
                 (update_health (index s0)
                    (fun old => compute_failure_health old e)
                    (record_call (CallRead (backend s0)) mb)))
      as (mb' & Heq & Hc & Hst).
    exists mb'. split; [exact Heq |]. split.
    + rewrite Hc, update_health_calls. simpl. now rewrite <- app_assoc.
    + rewrite Hst, !transitions_states. simpl. f_equal.
      rewrite !update_health_states. unfold step_of. now rewrite E0.
Qed.

Lemma read_operation_open {A} (answer : NeptuneBackend -> Result A)
    (clock : Z -> Time) mb :
  _shutdown_event mb = false ->
  read_operation answer clock mb
  = try_backends answer clock (_get_routable_backends mb) [] mb.
Proof.
  intros Hopen. unfold read_operation.
  unfold mbind at 1, disp_bind, bind. rewrite (check_not_closed_open _ Hopen).
  reflexivity.
Qed.

(** X5. A read operation stops at the first routable backend that
    answers: when the backends before it (in routing order) raise and
    it returns [r], the read returns [r], the backends after it are
    never called, and (with pairwise different indices) the backends
    before it each took one failure step, the answering backend is
    [Healthy] and every other backend keeps its health. *)
Theorem X5_read_first_success {A} (answer : NeptuneBackend -> Result A)
    (clock : Z -> Time) mb before s later r :
  _shutdown_event mb = false ->
  _get_routable_backends mb = before ++ s :: later ->
  Forall (fails answer) before ->
  answer (backend s) = Ok r ->
  let run := read_operation answer clock mb in
  fst run = Ok r /\
  calls (snd run)
  = calls mb ++ map (fun s => CallRead (backend s)) (before ++ [s]) /\
  (distinct_indices mb ->
   _backend_states (snd run)
   = advanced answer clock (map index (before ++ [s])) (_backend_states mb)).
Proof.
  intros Hopen Hroute Hall Hr run. subst run.
  rewrite (read_operation_open answer clock mb Hopen), Hroute.
  destruct (try_backends_first_success answer clock before s later r [] mb Hall Hr)
    as (mb' & -> & Hc & Hst). simpl.
  split; [reflexivity |]. split; [exact Hc |].
  intros Hnd. rewrite Hst. apply transitions_advanced; auto.
  { pose proof (routable_NoDup mb Hnd) as Hl. rewrite Hroute in Hl.
    change (before ++ s :: later) with (before ++ [s] ++ later) in Hl.
    rewrite app_assoc, map_app in Hl. exact (NoDup_app_remove_r _ _ Hl). }
  intros x Hx. apply (routable_incl mb). rewrite Hroute.
  apply in_app_iff in Hx as [Hx | [<- | []]]; apply in_app_iff; simpl; auto.
Qed.

(** *** URL-producing reads *)

Lemma collect_urls_spec (answer : NeptuneBackend -> Result string) l urls mb :
  exists mb',
    collect_urls answer l urls mb = (Ok (urls ++ successes answer l), mb') /\
    calls mb' = calls mb ++ map (fun s => CallGetRunUrl (backend s)) l /\
    _backend_states mb' = _backend_states mb.
Proof.
  revert urls mb. induction l as [| s l IH]; intros urls mb; simpl.
  - exists mb. rewrite !app_nil_r. auto.
  - unfold mbind at 1, mret, disp_bind, disp_ret, bind, ret, try_except,
      call_backend. unfold success_entry.
    destruct (answer (backend s)) as [url | e]; simpl.
    + destruct (IH (urls ++ [url]) (record_call (CallGetRunUrl (backend s)) mb))
        as (mb' & -> & Hc & Hst).
      exists mb'. rewrite <- app_assoc. split; [reflexivity |].
      rewrite Hc. simpl. rewrite <- app_assoc. auto.
    + destruct (IH urls (record_call (CallGetRunUrl (backend s)) mb))
        as (mb' & -> & Hc & Hst).
      exists mb'. split; [reflexivity |].
      rewrite Hc. simpl. rewrite <- app_assoc. auto.
Qed.

(** X6. [get_all_run_urls] never raises: it asks every backend of the
    state list, degraded or not and closed or not, and returns, in the
    order of the list, the URLs of the backends whose [get_run_url]
    did not raise; a backend that raises is skipped and, unlike in the
    other reads, no health state changes. *)
Theorem X6_get_all_run_urls (answer : NeptuneBackend -> Result string) mb :
  let run := get_all_run_urls answer mb in
  fst run = Ok (successes answer (_backend_states mb)) /\
  calls (snd run)
  = calls mb ++ map (fun s => CallGetRunUrl (backend s)) (_backend_states mb) /\
  _backend_states (snd run) = _backend_states mb.
Proof.
  intros run. subst run. unfold get_all_run_urls.
  unfold mbind, disp_bind, bind, get.
  destruct (collect_urls_spec answer (_backend_states mb) [] mb)
    as (mb' & -> & Hc & Hst). auto.
Qed.

(** *** create_model and create_model_version *)

Lemma dict_set_In {V} (d : list (Z * V)) k v k' v' :
  In (k', v') (dict_set d k v) -> (k', v') = (k, v) \/ In (k', v') d.
Proof.
  induction d as [| [k0 v0] d IH]; simpl.
  - intros [<- | []]. now left.
  - destruct (Z.eqb_spec k0 k); simpl.
    + intros [<- | H]; [now left | now right; right].
    + intros [<- | H]; [now right; left |].
      destruct (IH H) as [-> | H']; [now left | now right; right].
Qed.

Lemma dict_set_key {V} (d : list (Z * V)) k v : exists v', In (k, v') (dict_set d k v).
Proof.
  induction d as [| [k0 v0] d IH]; simpl; [eauto |].
  destruct (Z.eqb_spec k0 k); simpl; [eauto |].
  destruct IH as [v' H]. eauto.
Qed.

Lemma dict_set_keep {V} (d : list (Z * V)) k v k' :
  (exists v', In (k', v') d) -> exists v', In (k', v') (dict_set d k v).
Proof.
  intros [v' H]. induction d as [| [k0 v0] d IH]; simpl in *; [tauto |].
  destruct (Z.eqb_spec k0 k) as [-> | Hne]; simpl.
  - destruct H as [[= <- <-] | H]; eauto.
  - destruct H as [[= <- <-] | H]; [eauto |].
    destruct (IH H) as [v'' H']. eauto.
Qed.

Lemma lowest_spec {V} (best : Z * V) (others : list (Z * V)) :
  exists k, In (k, lowest best others) (best :: others) /\
            forall k' v', In (k', v') (best :: others) -> k <= k'.
Proof.
  revert best. induction others as [| [k1 v1] others IH]; intros [k v].
  - exists k. split; [now left |]. intros k' v' [[= <- <-] | []]. lia.
  - cbn [lowest fst]. destruct (Z.ltb_spec k1 k) as [Hlt | Hge].
    + destruct (IH (k1, v1)) as (k0 & Hin & Hmin). exists k0. split.
      * now right.
      * intros k' v' [[= <- <-] | Hin'].
        -- specialize (Hmin k1 v1 (or_introl eq_refl)). lia.
        -- exact (Hmin k' v' Hin').
    + destruct (IH (k, v)) as (k0 & Hin & Hmin). exists k0. split.
      * destruct Hin as [Hin | Hin]; [now left | now right; right].
      * intros k' v' [[= <- <-] | [[= <- <-] | Hin']].
        -- exact (Hmin k v (or_introl eq_refl)).
        -- specialize (Hmin k v (or_introl eq_refl)). lia.
        -- exact (Hmin k' v' (or_intror Hin')).
Qed.

Lemma collect_dict_spec {A} (answer : NeptuneBackend -> Result A) l errs
    (d : list (Z * A)) :
  exists d',
    collect_dict (map (worker_result answer) l) errs d
    = (errs ++ failures answer l, d') /\
    (forall k v, In (k, v) d' ->
       In (k, v) d \/ exists s, In s l /\ index s = k /\ answer (backend s) = Ok v) /\
    (forall k, (exists v, In (k, v) d) \/
               (exists s, In s l /\ index s = k /\ is_ok (answer (backend s)) = true) ->
               exists v, In (k, v) d').
Proof.
  revert errs d. induction l as [| s l IH]; intros errs d; simpl.
  - exists d. rewrite app_nil_r. split; [reflexivity |]. split; [auto |].
    intros k [H | (s & [] & _)]. exact H.
  - unfold worker_result at 1, failure_entry.
    destruct (answer (backend s)) as [r | e] eqn:E; simpl.
    + destruct (IH errs (dict_set d (index s) r)) as (d' & -> & Hin & Hkey).
      exists d'. split; [reflexivity |]. split.
      * intros k v Hkv. destruct (Hin k v Hkv) as [H | (s' & Hs' & Hk & Hv)].
        -- apply dict_set_In in H as [[= -> ->] | H]; [| auto].
           right. exists s. auto.
        -- right. exists s'. auto.
      * intros k [H | (s' & [<- | Hs'] & Hk & Hok)]; apply Hkey.
        -- left. now apply dict_set_keep.
        -- left. rewrite <- Hk. apply dict_set_key.
        -- right. exists s'. auto.
    + destruct (IH (errs ++ [BackendError (index s) (inl e)]) d)
        as (d' & -> & Hin & Hkey).
      exists d'. rewrite <- app_assoc. split; [reflexivity |]. split.
      * intros k v Hkv. destruct (Hin k v Hkv) as [H | (s' & Hs' & Hk & Hv)];
          [auto |]. right. exists s'. auto.
      * intros k [H | (s' & [<- | Hs'] & Hk & Hok)]; apply Hkey; auto.
        -- rewrite E in Hok. discriminate.
        -- right. exists s'. auto.
Qed.

Lemma within_deadline_map {X Y} (f : X -> Y) deadline (l : list X) :
  within_deadline deadline (map f l) = map f (within_deadline deadline l).
Proof. destruct deadline as [n |]; simpl; [| reflexivity]. symmetry. apply fmap_take. Qed.

Lemma create_on_all_eq (c : NeptuneBackend -> Call)
    (answer : NeptuneBackend -> Result ApiExperiment) clock as_completed deadline mb :
  is_open mb ->
  let collected := within_deadline deadline (as_completed (_backend_states mb)) in
  exists d mb',
    create_on_all c answer clock as_completed deadline mb
    = (match d with
       | [] => Raise (all_failed (_is_single_backend mb) (failures answer collected))
       | kv :: rest => Ok (lowest kv rest)
       end, mb') /\
    (forall k v, In (k, v) d ->
       exists s, In s collected /\ index s = k /\ answer (backend s) = Ok v) /\
    (forall s, In s collected -> is_ok (answer (backend s)) = true ->
               exists v, In (index s, v) d).
Proof.
  intros [Hopen Hexec] collected. unfold create_on_all.
  unfold mbind at 1, disp_bind, bind. rewrite (check_not_closed_open _ Hopen).
  unfold mbind at 1, disp_bind, bind, get. rewrite Hopen.
  unfold mbind at 1, disp_bind, bind. rewrite (submit_all_open _ _ Hexec).
  unfold mbind at 1, disp_bind, bind.
  destruct (run_workers_spec _ _ _ (as_completed (_backend_states mb)) mb
              (worker_ok c answer clock)) as (mb' & -> & Hsh & _).
  rewrite within_deadline_map. fold collected.
  destruct (collect_dict_spec answer collected [] []) as (d & -> & Hin & Hkey).
  simpl. exists d, mb'. split.
  - destruct d; [| reflexivity].
    now rewrite raise_all_failed_eq, (is_single_backend_shape _ _ Hsh).
  - split.
    + intros k v Hkv. destruct (Hin k v Hkv) as [[] | H]. exact H.
    + intros s Hs Hok. apply Hkey. right. exists s. auto.
Qed.

(** X7. [create_model] and [create_model_version] on an open
    dispatcher: when at least one backend whose result was collected
    before the deadline succeeded, the call returns the result of a
    successful backend of lowest original index among them; when none
    did, it raises as if every backend had failed, with one error per
    collected failure (none for backends that timed out). *)
Theorem X7_create_model_lowest_index (c : NeptuneBackend -> Call)
    (answer : NeptuneBackend -> Result ApiExperiment)
    (clock : Z -> Time)
    (as_completed : list (BackendState Time) -> list (BackendState Time))
    (deadline : option nat) mb :
  is_open mb ->
  let collected := within_deadline deadline (as_completed (_backend_states mb)) in
  let run := create_on_all c answer clock as_completed deadline mb in
  ((exists s, In s collected /\ is_ok (answer (backend s)) = true) ->
   exists s r, In s collected /\ answer (backend s) = Ok r /\ fst run = Ok r /\
     forall s', In s' collected -> is_ok (answer (backend s')) = true ->
                index s <= index s') /\
  (Forall (fails answer) collected ->
   fst run = Raise (all_failed (_is_single_backend mb) (failures answer collected))).
Proof.
  intros Hopen collected run. subst run.
  destruct (create_on_all_eq c answer clock as_completed deadline mb Hopen)
    as (d & mb' & -> & Hin & Hkey). fold collected in Hin, Hkey. simpl. split.
  - intros (s0 & Hs0 & Hok0). destruct (Hkey s0 Hs0 Hok0) as [v0 Hv0].
    destruct d as [| kv rest]; [destruct Hv0 |].
    destruct (lowest_spec kv rest) as (k & Hk & Hmin).
    destruct (Hin _ _ Hk) as (s & Hs & Hi & Hr).
    exists s, (lowest kv rest). repeat split; auto.
    intros s' Hs' Hok'. destruct (Hkey s' Hs' Hok') as [v' Hv'].
    rewrite Hi. exact (Hmin _ _ Hv').
  - intros Hall. destruct d as [| [k v] rest]; [reflexivity |].
    exfalso. destruct (Hin k v (or_introl eq_refl)) as (s & Hs & _ & Hr).
    apply (proj1 (List.Forall_forall _ _) Hall) in Hs. unfold fails in Hs.
    rewrite Hr in Hs. discriminate.
Qed.

(** *** The periodic health check *)

Lemma index_inj states s s' :
  List.NoDup (map index states) -> In s states -> In s' states ->
  index s = index s' -> s = s'.
Proof.
  intros Hnd Hs Hs' Hi. induction states as [| x xs IH]; [destruct Hs |].
  simpl in Hnd. apply List.NoDup_cons_iff in Hnd as [Hnotin Hnd].
  destruct Hs as [-> | Hs], Hs' as [-> | Hs']; auto.
  - exfalso. apply Hnotin. rewrite Hi. now apply in_map.
  - exfalso. apply Hnotin. rewrite <- Hi. now apply in_map.
Qed.

Lemma has_index_filter (p : BackendState Time -> bool) states s :
  List.NoDup (map index states) -> In s states ->
  has_index (map index (List.filter p states)) s = p s.
Proof.
  intros Hnd Hs. unfold has_index. apply eq_true_iff_eq.
  rewrite existsb_exists. split.
  - intros (i & Hi & He). apply Z.eqb_eq in He.
    apply in_map_iff in Hi as (s' & Hi' & Hin). apply filter_In in Hin as [Hin Hp].
    assert (s' = s) as <-; [| exact Hp].
    apply (index_inj states); auto. congruence.
  - intros Hp. exists (index s). split; [| apply Z.eqb_refl].
    apply in_map. apply filter_In. auto.
Qed.

Lemma filter_filter_and {X} (p q : X -> bool) (l : list X) :
  List.filter q (List.filter p l) = List.filter (fun x => p x && q x) l.
Proof.
  induction l as [| x l IH]; simpl; [reflexivity |].
  destruct (p x); simpl; [| exact IH]. destruct (q x); simpl; congruence.
Qed.

Lemma ping_each_spec (health_ping : NeptuneBackend -> Result unit)
    (clock : Z -> Time) l mb called :
  let result :=
    ping_each health_ping clock (map (fun s => (index s, backend s)) l) mb called in
  snd result = called ++ map backend l /\
  same_shape mb (fst result) /\
  calls (fst result) = calls mb /\
  _backend_states (fst result)
  = fold_left (fun st idx => update_first idx (fun _ => Healthy (clock idx)) st)
      (map index (List.filter (fun s => is_ok (health_ping (backend s))) l))
      (_backend_states mb).
Proof.
  revert mb called. induction l as [| s l IH]; intros mb called; simpl.
  - rewrite app_nil_r. repeat split.
  - destruct (health_ping (backend s)) as [[] | e]; simpl.
    + destruct (IH (update_health (index s)
                      (fun _ => compute_success_health (clock (index s))) mb)
                   (called ++ [backend s])) as (H1 & H2 & H3 & H4).
      rewrite H1, H3, H4, <- app_assoc, update_health_calls, update_health_states.
      split; [reflexivity |]. split; [| split; reflexivity].
      eapply same_shape_trans; [apply update_health_shape | exact H2].
    + destruct (IH mb (called ++ [backend s])) as (H1 & H2 & H3 & H4).
      rewrite H1, H3, H4, <- app_assoc.
      split; [reflexivity |]. split; [exact H2 |]. split; reflexivity.
Qed.

Lemma check_degraded_backends_spec
    (health_ping : NeptuneBackend -> Result unit) (clock : Z -> Time) mb :
  let check := _check_degraded_backends health_ping clock mb in
  (_shutdown_event mb = true ->
   after_check check = mb /\ pinged check = [] /\ rescheduled check = false) /\
  (_shutdown_event mb = false ->
   pinged check
   = map backend (List.filter (fun s => is_degraded (health s)) (_backend_states mb)) /\
   rescheduled check = true /\
   same_shape mb (after_check check) /\
   calls (after_check check) = calls mb /\
   (distinct_indices mb ->
    _backend_states (after_check check)
    = map (fun s => if recovered health_ping s
                    then with_health (Healthy (clock (index s))) s else s)
          (_backend_states mb))).
Proof.
  intros check. subst check. unfold _check_degraded_backends. split.
  - intros ->. auto.
  - intros Hopen. rewrite Hopen. unfold degraded_snapshot.
    set (deg := List.filter (fun s => is_degraded (health s)) (_backend_states mb)).
    pose proof (ping_each_spec health_ping clock deg mb []) as (H1 & H2 & H3 & H4).
    destruct (ping_each health_ping clock
                (map (fun state => (index state, backend state)) deg) mb [])
      as [mb' called]. simpl in *.
    split; [exact H1 |]. split.
    { destruct H2 as (_ & -> & _). now rewrite Hopen. }
    split; [exact H2 |]. split; [exact H3 |].
    intros Hnd. rewrite H4.
    rewrite (fold_rewritten (fun idx _ => Healthy (clock idx))); [| exact Hnd |].
    + unfold rewritten. apply map_ext_in. intros s Hs.
      unfold deg. rewrite filter_filter_and.
      now rewrite (has_index_filter _ _ _ Hnd Hs).
    + unfold deg. now repeat apply NoDup_map_filter.
Qed.

(** X8. The periodic health check does nothing once the shutdown event
    is set (no ping, no new timer).  Otherwise it pings exactly the
    degraded backends, in list order, and starts a new timer; with
    pairwise different indices a degraded backend whose ping succeeds
    becomes [Healthy], and every other backend, in particular a
    degraded one whose ping raises, keeps its health unchanged: a
    failed ping does not add to the failure count. *)
Theorem X8_check_degraded_backends
    (health_ping : NeptuneBackend -> Result unit) (clock : Z -> Time) mb :
  let check := _check_degraded_backends health_ping clock mb in
  (_shutdown_event mb = true ->
   after_check check = mb /\ pinged check = [] /\ rescheduled check = false) /\
  (_shutdown_event mb = false ->
   pinged check
   = map backend (List.filter (fun s => is_degraded (health s)) (_backend_states mb)) /\
   rescheduled check = true /\
   same_shape mb (after_check check) /\
   calls (after_check check) = calls mb /\
   (distinct_indices mb ->
    _backend_states (after_check check)
    = map (fun s => if recovered health_ping s
                    then with_health (Healthy (clock (index s))) s else s)
          (_backend_states mb))).
Proof. apply check_degraded_backends_spec. Qed.

(** *** Health updates from the per-backend processors *)

Lemma mark_backend_disconnected_some idx e (mb : MultiBackend Time) :
  mark_backend_disconnected idx (Some e) mb
  = (Ok tt, update_health idx (disconnect e) mb).
Proof. reflexivity. Qed.

Lemma update_health_from_cons (i : nat) b rest indices x (mb : MultiBackend Time) :
  indices !! i = Some x ->
  _update_multi_backend_health_from i (b :: rest) indices mb
  = _update_multi_backend_health_from (S i) rest indices
      (if 0 <? b
       then update_health x
              (disconnect (GenericError "Exception" "Connection issues during sync"))
              mb
       else mb).
Proof.
  intros Hx. cbn [_update_multi_backend_health_from].
  unfold mbind, disp_bind, bind. rewrite Hx.
  destruct (0 <? b); reflexivity.
Qed.

Lemma update_health_from_spec (backoffs : list Z) :
  forall (i : nat) (indices : list Z) (mb : MultiBackend Time),
  (i + length backoffs <= length indices)%nat ->
  let run := _update_multi_backend_health_from i backoffs indices mb in
  fst run = Ok tt /\
  same_shape mb (snd run) /\
  calls (snd run) = calls mb /\
  _backend_states (snd run)
  = fold_left
      (fun st idx =>
         update_first idx
           (disconnect (GenericError "Exception" "Connection issues during sync")) st)
      (flagged backoffs (drop i indices)) (_backend_states mb).
Proof.
  induction backoffs as [| b rest IH]; intros i indices mb Hlen.
  - simpl. unfold flagged. rewrite zip_with_nil_r. simpl.
    repeat split; reflexivity.
  - simpl in Hlen.
    destruct (lookup_lt_is_Some_2 indices i ltac:(lia)) as [x Hx].
    rewrite (drop_S _ _ _ Hx), (update_health_from_cons _ _ _ _ _ _ Hx).
    unfold flagged. cbn [zip_with List.filter map fst].
    cbv zeta. fold (flagged rest (drop (S i) indices)).
    destruct (0 <? b) eqn:Hb; cbn [List.filter map fst fold_left].
    + destruct (IH (S i) indices
                  (update_health x
                     (disconnect (GenericError "Exception"
                                               "Connection issues during sync")) mb)
                  ltac:(lia)) as (H1 & H2 & H3 & H4).
      split; [exact H1 |]. split.
      { eapply same_shape_trans; [apply update_health_shape | exact H2]. }
      split; [now rewrite H3, update_health_calls |].
      rewrite H4, update_health_states. reflexivity.
    + destruct (IH (S i) indices mb ltac:(lia)) as (H1 & H2 & H3 & H4).
      auto.
Qed.

Lemma has_index_flagged_out backoffs indices (s : BackendState Time) :
  ~ In (index s) indices -> has_index (flagged backoffs indices) s = false.
Proof.
  intros Hout. apply not_true_is_false. intros Hex. apply Hout.
  unfold has_index in Hex. apply existsb_exists in Hex as (i & Hi & He).
  apply Z.eqb_eq in He. subst i. unfold flagged in Hi.
  apply in_map_iff in Hi as ([i b] & Hfst & Hin). simpl in Hfst. subst i.
  apply filter_In in Hin as [Hin _].
  revert backoffs Hin. induction indices as [| x xs IH]; intros [| b' bs] Hin;
    simpl in Hin; try contradiction.
  destruct Hin as [Heq | Hin]; [inversion Heq; now left |].
  right. apply (IH (fun H => Hout (or_intror H)) bs Hin).
Qed.

Lemma rewritten_flagged (F : BackendState Time -> BackendState Time) states :
  forall backoffs,
  List.NoDup (map index states) ->
  map (fun s => if has_index (flagged backoffs (map index states)) s
                then F s else s) states
  = zip_with (fun s b => if 0 <? b then F s else s) states backoffs
    ++ drop (length backoffs) states.
Proof.
  induction states as [| s states IH]; intros backoffs Hnd; simpl.
  - now rewrite drop_nil.
  - simpl in Hnd. apply List.NoDup_cons_iff in Hnd as [Hnotin Hnd].
    destruct backoffs as [| b bs]; simpl.
    + now rewrite map_id.
    + rewrite <- (IH bs Hnd). f_equal.
      * unfold flagged at 1. simpl. destruct (0 <? b) eqn:Hb; simpl.
        -- unfold has_index. simpl. now rewrite Z.eqb_refl.
        -- fold (flagged bs (map index states)).
           now rewrite (has_index_flagged_out _ _ _ Hnotin).
      * apply map_ext_in. intros s' Hs'.
        assert ((index s' =? index s) = false) as Hne.
        { apply Z.eqb_neq. intros Heq. apply Hnotin. rewrite <- Heq.
          now apply in_map. }
        unfold flagged at 1. simpl. destruct (0 <? b); simpl;
          fold (flagged bs (map index states)); [| reflexivity].
        unfold has_index. simpl. now rewrite Hne.
Qed.

Lemma flagged_NoDup backoffs indices :
  List.NoDup indices -> List.NoDup (flagged backoffs indices).
Proof.
  revert backoffs. induction indices as [| x xs IH]; intros [| b bs] Hnd;
    unfold flagged; simpl; try constructor.
  apply List.NoDup_cons_iff in Hnd as [Hnotin Hnd].
  destruct (0 <? b); simpl; fold (flagged bs xs); [| now apply IH].
  constructor; [| now apply IH].
  intros Hin. apply Hnotin. unfold flagged in Hin.
  apply in_map_iff in Hin as ([i b'] & Hfst & Hin). simpl in Hfst. subst i.
  apply filter_In in Hin as [Hin _].
  clear -Hin. revert bs Hin. induction xs as [| y ys IHy]; intros [| c cs] Hin;
    simpl in Hin; try contradiction.
  destruct Hin as [Heq | Hin]; [inversion Heq; now left |].
  right. apply (IHy cs Hin).
Qed.

(** X9. After the per-backend processors have stopped, the dispatcher's
    health is brought up to date: with one processor per backend state,
    in order, and pairwise different indices, the backend at each
    position whose processor ended with a positive backoff is marked
    disconnected (a [Healthy] one becomes [Degraded] with
    [FAILURE_THRESHOLD] failures and the error ["Connection issues
    during sync"]; a [Failing] or [Degraded] one keeps its health), and
    the backends whose processor has backoff 0 are untouched.  The
    update never raises, calls no backend and leaves the flags alone. *)
Theorem X9_update_multi_backend_health (backoffs : list Z) mb :
  length backoffs = length (_backend_states mb) ->
  distinct_indices mb ->
  let err := GenericError "Exception" "Connection issues during sync" in
  let run :=
    _update_multi_backend_health backoffs (map index (_backend_states mb)) mb in
  fst run = Ok tt /\
  same_shape mb (snd run) /\
  calls (snd run) = calls mb /\
  _backend_states (snd run)
  = zip_with (fun s b => if 0 <? b
                         then with_health (disconnect err (health s)) s
                         else s)
      (_backend_states mb) backoffs.
Proof.
  intros Hlen Hnd err run. subst run. unfold _update_multi_backend_health.
  destruct (update_health_from_spec backoffs 0 (map index (_backend_states mb)) mb)
    as (H1 & H2 & H3 & H4).
  { rewrite length_map. simpl. lia. }
  split; [exact H1 |]. split; [exact H2 |]. split; [exact H3 |].
  rewrite H4, drop_0.
  rewrite (fold_rewritten (fun _ => disconnect err)); [| exact Hnd |].
  - unfold rewritten.
    rewrite (rewritten_flagged
               (fun s => with_health (disconnect err (health s)) s) _ backoffs Hnd).
    rewrite Hlen, drop_all. apply app_nil_r.
  - apply flagged_NoDup. exact Hnd.
Qed.


(** *** The two constructors *)





Lemma init_distinct (now : Time) backends : distinct_indices (init now backends).
Proof.
  unfold distinct_indices. apply NoDup_ListNoDup, NoDup_alt.
  intros i j x Hi Hj.
  change (map index (_backend_states (init now backends)))
    with (index <$> _backend_states (init now backends)) in Hi, Hj.
  rewrite list_lookup_fmap in Hi, Hj. simpl in Hi, Hj.
  rewrite list_lookup_imap in Hi, Hj.
  destruct (backends !! i); [| discriminate].
  destruct (backends !! j); [| discriminate].
  simpl in Hi, Hj. injection Hi as <-. injection Hj as Hj. lia.
Qed.







(** *** Degradation and recovery across calls *)

Lemma advanced_indices {A} (answer : NeptuneBackend -> Result A) clock idxs states :
  map index (advanced answer clock idxs states) = map index states.
Proof.
  unfold advanced. rewrite map_map. apply map_ext. intros s.
  now destruct (has_index idxs s).
Qed.

Lemma routable_member mb s :
  In s (_backend_states mb) -> is_routable (health s) = true ->
  In s (_get_routable_backends mb).
Proof.
  intros Hin Hr.
  assert (In s (routable_states (_backend_states mb))) as Hs
      by (apply filter_In; auto).
  unfold _get_routable_backends.
  destruct (routable_states (_backend_states mb)); [destruct Hs | exact Hs].
Qed.

Lemma has_index_member idxs s : In (index s) idxs -> has_index idxs s = true.
Proof.
  intros Hin. unfold has_index. apply existsb_exists.
  exists (index s). split; [exact Hin | apply Z.eqb_refl].
Qed.

Lemma write_step (answer : NeptuneBackend -> Result (Z * list Exception))
    (clock : Z -> Time)
    (as_completed : list (BackendState Time) -> list (BackendState Time)) mb s :
  is_open mb -> (forall l, Permutation (as_completed l) l) ->
  distinct_indices mb ->
  In s (_backend_states mb) -> is_routable (health s) = true ->
  let mb' := snd (execute_operations answer clock as_completed mb) in
  is_open mb' /\ distinct_indices mb' /\
  In (with_health (outcome_health answer clock s) s) (_backend_states mb').
Proof.
  intros Hopen Hperm Hnd Hin Hr mb'.
  pose proof (execute_operations_states answer clock as_completed mb
                Hopen Hperm Hnd) as Hst.
  destruct (execute_operations_eq answer clock as_completed mb Hopen)
    as (mb1 & Heq & (_ & Hsd & Hex) & _).
  subst mb'. rewrite Heq in *. cbn [snd] in *.
  split; [| split].
  - destruct Hopen as [H1 H2]. split; congruence.
  - unfold distinct_indices. rewrite Hst, advanced_indices. exact Hnd.
  - rewrite Hst. unfold advanced.
    apply in_map_iff. exists s. split; [| exact Hin].
    rewrite has_index_member; [reflexivity |].
    apply in_map. now apply routable_member.
Qed.

(** X20. Three failed writes in a row take a healthy backend out of
    rotation.  On an open dispatcher with pairwise different indices, a
    [Healthy] backend that raises in three consecutive
    [execute_operations] calls (whatever the other backends do and in
    whatever order the workers finish) is [Degraded] with 3 failures
    and the third error afterwards; and as long as some backend is
    still routable, it is not among the backends of the next call. *)
Theorem X20_three_failed_writes_degrade
    (answer1 answer2 answer3 : NeptuneBackend -> Result (Z * list Exception))
    (clock : Z -> Time)
    (as_completed : list (BackendState Time) -> list (BackendState Time))
    mb s (t : Time) (e1 e2 e3 : Exception) :
  is_open mb -> distinct_indices mb ->
  (forall l, Permutation (as_completed l) l) ->
  In s (_backend_states mb) -> health s = Healthy t ->
  answer1 (backend s) = Raise e1 ->
  answer2 (backend s) = Raise e2 ->
  answer3 (backend s) = Raise e3 ->
  let mb1 := snd (execute_operations answer1 clock as_completed mb) in
  let mb2 := snd (execute_operations answer2 clock as_completed mb1) in
  let mb3 := snd (execute_operations answer3 clock as_completed mb2) in
  is_open mb3 /\
  In (with_health (Degraded 3 e3) s) (_backend_states mb3) /\
  ((exists s', In s' (_backend_states mb3) /\ is_routable (health s') = true) ->
   forall r, In r (_get_routable_backends mb3) -> index r <> index s).
Proof.
  intros Hopen Hnd Hperm Hin Hh H1 H2 H3 mb1 mb2 mb3.
  destruct (write_step answer1 clock as_completed mb s Hopen Hperm Hnd Hin)
    as (Ho1 & Hd1 & Hin1); [now rewrite Hh |].
  fold mb1 in Ho1, Hd1, Hin1.
  unfold outcome_health in Hin1. rewrite H1, Hh in Hin1. simpl in Hin1.
  destruct (write_step answer2 clock as_completed mb1 _ Ho1 Hperm Hd1 Hin1)
    as (Ho2 & Hd2 & Hin2); [reflexivity |].
  fold mb2 in Ho2, Hd2, Hin2.
  unfold outcome_health in Hin2. simpl in Hin2. rewrite H2 in Hin2.
  simpl in Hin2.
  destruct (write_step answer3 clock as_completed mb2 _ Ho2 Hperm Hd2 Hin2)
    as (Ho3 & Hd3 & Hin3); [reflexivity |].
  fold mb3 in Ho3, Hd3, Hin3.
  unfold outcome_health in Hin3. simpl in Hin3. rewrite H3 in Hin3.
  simpl in Hin3.
  split; [exact Ho3 |]. split; [exact Hin3 |].
  intros (s' & Hs' & Hr') r Hrin Hidx.
  assert (In r (routable_states (_backend_states mb3))) as Hr.
  { unfold _get_routable_backends in Hrin.
    destruct (routable_states (_backend_states mb3)) as [| x l] eqn:E;
      [| exact Hrin].
    exfalso. assert (In s' (routable_states (_backend_states mb3))) as Habs
        by (apply filter_In; auto).
    rewrite E in Habs. destruct Habs. }
  apply filter_In in Hr as [Hr Hrr].
  assert (r = with_health (Degraded 3 e3) s) as ->.
  { apply (index_inj (_backend_states mb3)); auto. }
  discriminate.
Qed.

(** X21. A degraded backend whose health ping succeeds is back in
    rotation: after the periodic check on an open dispatcher with
    pairwise different indices it is [Healthy] and among the routable
    backends. *)
Theorem X21_recovered_backend_is_routable
    (health_ping : NeptuneBackend -> Result unit) (clock : Z -> Time) mb s :
  _shutdown_event mb = false -> distinct_indices mb ->
  In s (_backend_states mb) ->
  is_degraded (health s) = true -> is_ok (health_ping (backend s)) = true ->
  let mb' := after_check (_check_degraded_backends health_ping clock mb) in
  In (with_health (Healthy (clock (index s))) s) (_get_routable_backends mb').
Proof.
  intros Hopen Hnd Hin Hdeg Hok mb'.
  destruct (check_degraded_backends_spec health_ping clock mb) as [_ Hspec].
  destruct (Hspec Hopen) as (_ & _ & _ & _ & Hst). specialize (Hst Hnd).
  apply routable_member; [| reflexivity].
  subst mb'. rewrite Hst. apply in_map_iff. exists s. split; [| exact Hin].
  unfold recovered. now rewrite Hdeg, Hok.
Qed.


(** *** The run URL of the primary *)

Lemma get_run_url_eq (answer : NeptuneBackend -> Result string) mb :
  get_run_url answer mb
  = match _backend_states mb with
    | [] => (Raise (GenericError "IndexError" "list index out of range"), mb)
    | state :: _ => (answer (backend state),
                     record_call (CallGetRunUrl (backend state)) mb)
    end.
Proof.
  unfold get_run_url, mbind, disp_bind, bind, get.
  now destruct (_backend_states mb).
Qed.

(** X22. [get_run_url] asks the first wrapped backend only, whatever
    its health and whether or not the dispatcher is closed: the answer
    of that backend is the result, an exception included (it is not
    wrapped and no other backend is tried); a dispatcher without
    backends gives IndexError.  No health state changes.  When it
    returns a URL, that URL is the first one of [get_all_run_urls]. *)
Theorem X22_get_run_url (answer : NeptuneBackend -> Result string) mb :
  let run := get_run_url answer mb in
  _backend_states (snd run) = _backend_states mb /\
  same_shape mb (snd run) /\
  match _backend_states mb with
  | [] => fst run = Raise (GenericError "IndexError" "list index out of range") /\
          calls (snd run) = calls mb
  | state :: _ => fst run = answer (backend state) /\
                  calls (snd run) = calls mb ++ [CallGetRunUrl (backend state)]
  end /\
  (forall url, fst run = Ok url ->
     exists others, fst (get_all_run_urls answer mb) = Ok (url :: others)).
Proof.
  intros run. subst run. rewrite get_run_url_eq.
  unfold get_all_run_urls, mbind, disp_bind, bind, get.
  destruct (collect_urls_spec answer (_backend_states mb) [] mb)
    as (mb' & -> & _ & _).
  destruct (_backend_states mb) as [| state rest] eqn:E; cbn [fst snd].
  - split; [exact E |]. split; [apply same_shape_refl |].
    split; [auto |]. intros url H. discriminate.
  - split; [simpl; exact E |]. split; [apply record_call_shape |].
    split; [auto |]. intros url H. cbn [successes flat_map app].
    unfold success_entry at 1. rewrite H. eexists. reflexivity.
Qed.


End DispatcherFurther.

(** * Further properties of the worker thread *)

Section DaemonFurther.
Import Daemon Daemon.ConnectionRetryWrapper.
Context {R : Type}.
Implicit Types (d : Daemon) (script : list (Round R)).

Lemma apply_not_init a s : s <> INIT -> apply a s <> INIT.
Proof. destruct a, s; simpl; congruence. Qed.

Lemma after_not_init actions s : s <> INIT -> after actions s <> INIT.
Proof.
  revert s. induction actions as [| a actions IH]; intros s H; [exact H |].
  simpl. apply IH, apply_not_init, H.
Qed.

Lemma terminal_reached actions s :
  is_terminal s = false -> is_terminal (after actions s) = true ->
  In DoInterrupt actions \/ In RunFinally actions.
Proof.
  revert s. induction actions as [| a actions IH]; intros s Hs Hend.
  - simpl in Hend. congruence.
  - assert (a = DoInterrupt \/ a = RunFinally \/ is_terminal (apply a s) = false)
      as [-> | [-> | Hstep]].
    { destruct a; auto; right; right; now destruct s. }
    + left. now left.
    + right. now left.
    + destruct (IH (apply a s) Hstep Hend) as [H | H];
        [left; now right | right; now right].
Qed.

(** X12. The terminal states of the worker are absorbing and are only
    entered by [interrupt()] or by the [finally] block of [run]: once
    the state is INTERRUPTED or STOPPED, no sequence of [interrupt],
    [pause], [resume] and writes of [run] makes the worker running
    again; a worker that was not terminal and is terminal afterwards
    has seen [interrupt()] or the end of [run]; and no write brings a
    worker back to INIT. *)
Theorem X12_daemon_terminal_states (actions : list Action) (s : DaemonState) :
  (is_terminal s = true ->
   is_terminal (after actions s) = true /\ is_running (after actions s) = false) /\
  (is_terminal s = false -> is_terminal (after actions s) = true ->
   In DoInterrupt actions \/ In RunFinally actions) /\
  (s <> INIT -> after actions s <> INIT).
Proof.
  split; [| split].
  - intros H. pose proof (terminal_after actions s H) as Ht.
    split; [exact Ht | now apply terminal_not_running].
  - apply terminal_reached.
  - apply after_not_init.
Qed.

Lemma wrapper_cons kill_message (round : Round R) rest d :
  _is_interrupted d = false ->
  wrapper kill_message (round :: rest) d
  = let d1 := disturbed (interrupted_in_call round) d in
    match attempt round with
    | Ok result => (Returned (Some result), on_success d1)
    | Raise (NeptuneConnectionLostException error_name) =>
        wrapper kill_message rest
          (backoff_wait (interrupted_in_wait round)
             (on_connection_lost error_name d1))
    | Raise e => (Raised e, emit (fatal_record kill_message) d1)
    end.
Proof. intros H. simpl. now rewrite H. Qed.

Lemma wrapper_interrupted kill_message script d :
  _is_interrupted d = true -> wrapper kill_message script d = (Returned None, d).
Proof. intros H. destruct script; simpl; now rewrite H. Qed.

Lemma next_backoff_bounds b :
  0 <= b <= MAX_RETRY_BACKOFF ->
  INITIAL_RETRY_BACKOFF <= next_backoff b <= MAX_RETRY_BACKOFF /\ b <= next_backoff b.
Proof.
  unfold next_backoff, INITIAL_RETRY_BACKOFF, MAX_RETRY_BACKOFF.
  destruct (Z.eqb_spec b 0); lia.
Qed.

Lemma lost_step error_name (ic iw : bool) d :
  let d' := backoff_wait iw (on_connection_lost error_name (disturbed ic d)) in
  last_backoff_time d' = next_backoff (last_backoff_time d) /\
  waits d' = waits d ++ [next_backoff (last_backoff_time d)] /\
  Daemon._backend_index d' = Daemon._backend_index d /\
  (exists recs, log d' = log d ++ recs) /\
  (ic || iw = true -> _is_interrupted d' = true) /\
  (ic || iw = false -> _state d' = _state d).
Proof.
  unfold backoff_wait, on_connection_lost, disturbed, next_backoff, _is_interrupted.
  destruct ic, iw; simpl;
    (destruct (last_backoff_time d =? 0); simpl;
     [destruct (String.eqb error_name "HTTPTooManyRequests"); simpl
     | try destruct (is_terminal (_state d)); simpl]);
    (split; [reflexivity |]); (split; [reflexivity |]);
    (split; [reflexivity |]);
    (split; [first [now (exists []; rewrite app_nil_r) | eexists; reflexivity] |]);
    (split; [intros; first [reflexivity | discriminate]
            | intros; first [reflexivity | discriminate]]).
Qed.

Lemma success_step (ic : bool) d :
  let d' := on_success (disturbed ic d) in
  (last_backoff_time d' = 0 \/
   (last_backoff_time d <= 0 /\ last_backoff_time d' = last_backoff_time d)) /\
  waits d' = waits d /\
  Daemon._backend_index d' = Daemon._backend_index d /\
  (exists recs, log d' = log d ++ recs).
Proof.
  unfold on_success, disturbed.
  destruct ic; simpl; destruct (Z.ltb_spec 0 (last_backoff_time d)); simpl;
    (split; [first [now left | right; split; [lia | reflexivity]] |]);
    (split; [reflexivity |]); (split; [reflexivity |]);
    first [now (exists []; rewrite app_nil_r) | eexists; reflexivity].
Qed.

Lemma fatal_step kill_message (ic : bool) d :
  let d' := emit (fatal_record kill_message) (disturbed ic d) in
  last_backoff_time d' = last_backoff_time d /\
  waits d' = waits d /\
  Daemon._backend_index d' = Daemon._backend_index d /\
  log d' = log d ++ [fatal_record kill_message].
Proof. destruct ic; repeat split. Qed.

(** X13. Whatever the wrapped function and the other threads do, the
    retry wrapper keeps the stored backoff between 0 and
    [MAX_RETRY_BACKOFF] (120 s); every timeout it waits with lies
    between [INITIAL_RETRY_BACKOFF] (2 s) and 120 s and is at least the
    backoff stored when the wrapper was entered; it only appends to the
    log and never changes the backend index. *)
Theorem X13_retry_backoff_bounds (kill_message : string) script d :
  0 <= last_backoff_time d <= MAX_RETRY_BACKOFF ->
  let d' := snd (wrapper kill_message script d) in
  0 <= last_backoff_time d' <= MAX_RETRY_BACKOFF /\
  Daemon._backend_index d' = Daemon._backend_index d /\
  (exists recs, log d' = log d ++ recs) /\
  (exists new,
     waits d' = waits d ++ new /\
     Forall (fun t => INITIAL_RETRY_BACKOFF <= t <= MAX_RETRY_BACKOFF /\
                      last_backoff_time d <= t) new).
Proof.
  revert d.
  induction script as [| round rest IH]; intros d Hb.
  - assert (wrapper kill_message [] d = (if _is_interrupted d then Returned None
                                         else Pending, d)) as ->.
    { simpl. now destruct (_is_interrupted d). }
    simpl. split; [exact Hb |]. split; [reflexivity |].
    split; exists []; rewrite app_nil_r; [reflexivity |].
    split; [reflexivity | constructor].
  - destruct (_is_interrupted d) eqn:Hint.
    + rewrite (wrapper_interrupted _ _ _ Hint). simpl.
      split; [exact Hb |]. split; [reflexivity |].
      split; exists []; rewrite app_nil_r; [reflexivity |].
      split; [reflexivity | constructor].
    + rewrite (wrapper_cons _ _ _ _ Hint). cbv zeta.
      destruct (attempt round) as [result | e].
      * destruct (success_step (interrupted_in_call round) d)
          as (Hb' & Hw & Hi & Hl). cbn [snd].
        split; [destruct Hb' as [-> | [_ ->]];
                [unfold MAX_RETRY_BACKOFF; lia | exact Hb] |].
        split; [exact Hi |]. split; [exact Hl |].
        exists []. rewrite app_nil_r. split; [exact Hw | constructor].
      * destruct e as [ty m | error_name | | | idx cause | errors];
          try (destruct (fatal_step kill_message (interrupted_in_call round) d)
                 as (Hb' & Hw & Hi & Hl); cbn [snd];
               split; [now rewrite Hb' |]; split; [exact Hi |];
               split; [eexists; exact Hl |];
               exists []; rewrite app_nil_r; split; [exact Hw | constructor]).
        destruct (lost_step error_name (interrupted_in_call round)
                    (interrupted_in_wait round) d)
          as (Hb' & Hw & Hi & [recs Hl] & _).
        destruct (next_backoff_bounds _ Hb) as [Hnb Hge].
        destruct (IH (backoff_wait (interrupted_in_wait round)
                        (on_connection_lost error_name
                           (disturbed (interrupted_in_call round) d))))
          as (Hb2 & Hi2 & [recs2 Hl2] & new & Hw2 & Hnew).
        { rewrite Hb'. unfold INITIAL_RETRY_BACKOFF in Hnb. lia. }
        split; [exact Hb2 |]. split; [now rewrite Hi2 |].
        split; [exists (recs ++ recs2); now rewrite Hl2, Hl, app_assoc |].
        exists (next_backoff (last_backoff_time d) :: new).
        split; [rewrite Hw2, Hw, <- app_assoc; reflexivity |].
        constructor; [split; [exact Hnb | exact Hge] |].
        eapply Forall_impl; [exact Hnew |].
        intros t [Ht Hle]. split; [exact Ht |]. rewrite Hb' in Hle. lia.
Qed.



(** X15. An interrupt ends the retries at once.  If [interrupt()]
    arrives while the wrapped function runs or during the wait that
    follows a connection loss, the wrapped function is not called
    again: the outcome does not depend on what further calls would do.
    When that call lost the connection the wrapper returns [None]; the
    wait is still entered once, with the next backoff as timeout. *)
Theorem X15_interrupt_stops_retrying (kill_message : string)
    (round : Round R) (rest rest' : list (Round R)) d :
  interrupted_in_call round || interrupted_in_wait round = true ->
  wrapper kill_message (round :: rest) d
  = wrapper kill_message (round :: rest') d /\
  fst (wrapper kill_message (round :: rest) d) <> Pending /\
  (_is_interrupted d = false ->
   forall error_name,
     attempt round = Raise (NeptuneConnectionLostException error_name) ->
     fst (wrapper kill_message (round :: rest) d) = Returned None /\
     waits (snd (wrapper kill_message (round :: rest) d))
     = waits d ++ [next_backoff (last_backoff_time d)] /\
     last_backoff_time (snd (wrapper kill_message (round :: rest) d))
     = next_backoff (last_backoff_time d)).
Proof.
  intros Hint.
  destruct (_is_interrupted d) eqn:Hd.
  - rewrite !(wrapper_interrupted _ _ _ Hd). cbn [fst].
    split; [reflexivity |]. split; [discriminate | discriminate].
  - rewrite !(wrapper_cons _ _ _ _ Hd). cbv zeta.
    destruct (attempt round) as [result | e].
    + split; [reflexivity |]. split; [discriminate |]. intros _ n Hn. discriminate.
    + destruct e as [ty m | error_name | | | idx cause | errors];
        try (split; [reflexivity |]; split; [discriminate |];
             intros _ n Hn; discriminate).
      destruct (lost_step error_name (interrupted_in_call round)
                  (interrupted_in_wait round) d) as (Hb & Hw & _ & _ & Hi & _).
      specialize (Hi Hint).
      rewrite !(wrapper_interrupted _ _ _ Hi). cbn [fst snd].
      split; [reflexivity |]. split; [discriminate |].
      intros _ n Hn. split; [reflexivity |]. split; [exact Hw | exact Hb].
Qed.


End DaemonFurther.

(** * Further properties of the per-backend processor *)

Section ProcessorFurther.
Import Daemon AsyncOperationProcessor ConsumerThread.
Context {Operation Time : Type}.
Implicit Types (p : Processor Operation Time).

Lemma size_nonneg (q : Queue Operation Time) : 0 <= size q.
Proof. unfold size. lia. Qed.

(** X16. [_check_queue_backpressure] raises the stored threshold to
    [size // 5000] and never lowers it.  It logs one warning exactly
    when the threshold rises; the reported number of queued operations
    is the multiple of 5000 just below or at the queue size.  A second
    check on the same queue logs nothing, and the queue and the
    versions are not touched. *)
Theorem X16_check_queue_backpressure p :
  let p' := _check_queue_backpressure p in
  let current := size (_queue p) / QUEUE_BACKPRESSURE_THRESHOLD in
  _queue_threshold p' = Z.max (_queue_threshold p) current /\
  (current <= _queue_threshold p -> p' = p) /\
  (_queue_threshold p < current ->
   exists r n,
     trace p' = trace p ++ [EvLog r] /\ level r = WARNING /\
     args r = [ArgStr (backend_prefix p); ArgInt n] /\
     n mod QUEUE_BACKPRESSURE_THRESHOLD = 0 /\
     n <= size (_queue p) < n + QUEUE_BACKPRESSURE_THRESHOLD) /\
  _check_queue_backpressure p' = p' /\
  _queue p' = _queue p /\
  _last_version p' = _last_version p /\
  _consumed_version p' = _consumed_version p.
Proof.
  intros p' current. subst p' current. unfold _check_queue_backpressure.
  unfold QUEUE_BACKPRESSURE_THRESHOLD.
  pose proof (size_nonneg (_queue p)) as Hsz.
  destruct (Z.ltb_spec (_queue_threshold p) (size (_queue p) / 5000)) as [Hlt | Hge].
  - cbn [_queue_threshold set_threshold _queue emit trace _last_version
         _consumed_version].
    rewrite Z.ltb_irrefl.
    split; [lia |]. split; [lia |]. split; [| repeat split].
    intros _. eexists. exists (size (_queue p) / 5000 * 5000).
    split; [reflexivity |]. split; [reflexivity |]. split; [reflexivity |].
    split; [apply Z.mod_mul; lia |].
    pose proof (Z.div_mod (size (_queue p)) 5000 ltac:(lia)).
    pose proof (Z.mod_pos_bound (size (_queue p)) 5000 ltac:(lia)). lia.
  - apply Z.ltb_ge in Hge as Hb. rewrite Hb.
    split; [lia |]. split; [reflexivity |]. split; [lia |]. repeat split.
Qed.

(** X17. [_check_queue_backpressure_lifted] does nothing while no
    backpressure is recorded (threshold 0) or the queue still holds
    5000 operations or more; otherwise it logs one INFO record with the
    queue size and resets the threshold to 0.  A second check logs
    nothing, and after a reset the backpressure check on the same queue
    does not warn again. *)
Theorem X17_check_queue_backpressure_lifted p :
  let p' := _check_queue_backpressure_lifted p in
  let lifted := negb (_queue_threshold p =? 0)
                && (size (_queue p) <? QUEUE_BACKPRESSURE_THRESHOLD) in
  (lifted = false -> p' = p) /\
  (lifted = true ->
   _queue_threshold p' = 0 /\
   exists r,
     trace p' = trace p ++ [EvLog r] /\ level r = INFO /\
     args r = [ArgStr (backend_prefix p); ArgInt (size (_queue p))] /\
     _check_queue_backpressure p' = p') /\
  _check_queue_backpressure_lifted p' = p' /\
  _queue p' = _queue p /\
  _last_version p' = _last_version p /\
  _consumed_version p' = _consumed_version p.
Proof.
  intros p' lifted. subst p' lifted. unfold _check_queue_backpressure_lifted.
  unfold QUEUE_BACKPRESSURE_THRESHOLD.
  pose proof (size_nonneg (_queue p)) as Hsz.
  destruct (Z.eqb_spec (_queue_threshold p) 0) as [Hz | Hnz]; cbn [negb andb].
  - rewrite (proj2 (Z.eqb_eq _ _) Hz).
    split; [reflexivity |]. split; [discriminate |]. repeat split.
  - destruct (Z.ltb_spec (size (_queue p)) 5000) as [Hlt | Hge].
    + cbn [_queue_threshold set_threshold _queue emit trace _last_version
           _consumed_version]. rewrite Z.eqb_refl.
      split; [discriminate |]. split; [| repeat split].
      intros _. split; [reflexivity |]. eexists.
      split; [reflexivity |]. split; [reflexivity |]. split; [reflexivity |].
      unfold _check_queue_backpressure. unfold QUEUE_BACKPRESSURE_THRESHOLD.
      cbn [_queue_threshold set_threshold _queue emit].
      now rewrite (Z.div_small (size (_queue p)) 5000) by lia.
    + rewrite (proj2 (Z.eqb_neq _ _) Hnz).
      apply Z.ltb_ge in Hge as Hb. rewrite Hb.
      split; [reflexivity |]. split; [discriminate |]. repeat split.
Qed.

(** *** What process_batch sends again *)

Lemma executed_app (evs1 evs2 : list (Event Operation)) :
  executed (evs1 ++ evs2) = executed evs1 ++ executed evs2.
Proof.
  induction evs1 as [| ev evs1 IH]; [reflexivity |].
  destruct ev; simpl; rewrite IH; reflexivity.
Qed.

Lemma executed_logs (logs : list (Event Operation)) :
  Forall is_log logs -> executed logs = [].
Proof.
  induction 1 as [| ev evs Hev Hevs IH]; [reflexivity |].
  destruct ev; try contradiction. exact IH.
Qed.

Lemma acknowledge_executed v errors p :
  executed (trace (acknowledge v errors p)) = executed (trace p) /\
  _consumed_version (acknowledge v errors p) = v.
Proof.
  unfold acknowledge.
  set (p1 := emit (EvAck v) (set_queue (ack v (_queue (emit EvAcquire p)))
                                        (emit EvAcquire p))).
  destruct (logs_only_trans _ _ _ (backpressure_lifted_logs p1)
              (handle_errors_logs errors (_check_queue_backpressure_lifted p1)))
    as (logs & Hlogs & Ht & _ & _).
  split; [| reflexivity].
  cbn [trace emit set_consumed_version]. rewrite Ht. unfold p1.
  cbn [trace emit set_queue].
  rewrite !executed_app, (executed_logs _ Hlogs). simpl.
  now rewrite !app_nil_r.
Qed.

Lemma slice_from_nat {X} (n : nat) (l : list X) :
  slice_from (Z.of_nat n) l = drop n l.
Proof.
  unfold slice_from. rewrite (proj2 (Z.leb_le 0 (Z.of_nat n))) by lia.
  now rewrite Nat2Z.id.
Qed.

Lemma processed_cons (step : nat * list Exception) steps :
  processed (step :: steps) = (fst step + processed steps)%nat.
Proof. reflexivity. Qed.

Lemma loop_cons version (n : nat) errors steps (cur : list Operation) vta p :
  process_batch_loop (ok_answers ((n, errors) :: steps)) cur version vta p
  = let p2 := acknowledge (vta + Z.of_nat n) errors
                (emit (EvSignal BatchProcessedSignal)
                   (emit (EvExecuted (Z.of_nat n)) (emit (EvExecute cur) p))) in
    if vta + Z.of_nat n =? version
    then (Returned tt, emit EvRelease (emit EvNotifyAll p2))
    else process_batch_loop (ok_answers steps) (drop n cur) version
           (vta + Z.of_nat n) (emit EvRelease p2).
Proof.
  unfold ok_answers. cbn [map process_batch_loop]. cbv beta iota zeta.
  now rewrite slice_from_nat.
Qed.

Lemma loop_progress version steps :
  forall (step : nat * list Exception) (cur : list Operation) vta p,
  (forall j, (0 < j < S (length steps))%nat ->
     vta + Z.of_nat (processed (take j (step :: steps))) <> version) ->
  let run := process_batch_loop (ok_answers (step :: steps)) cur version vta p in
  executed (trace (snd run))
  = executed (trace p)
    ++ map (fun j => drop (processed (take j (step :: steps))) cur)
           (seq 0 (S (length steps))) /\
  _consumed_version (snd run) = vta + Z.of_nat (processed (step :: steps)) /\
  fst run = (if vta + Z.of_nat (processed (step :: steps)) =? version
             then Returned tt else Pending).
Proof.
  induction steps as [| step2 rest IH]; intros [n errors] cur vta p Hno run;
    subst run.
  - rewrite loop_cons. cbv zeta. cbn [ok_answers map process_batch_loop].
    destruct (acknowledge_executed (vta + Z.of_nat n) errors
                (emit (EvSignal BatchProcessedSignal)
                   (emit (EvExecuted (Z.of_nat n)) (emit (EvExecute cur) p))))
      as [Hex Hcv].
    assert (processed [(n, errors)] = n) as Hp
        by (unfold processed; simpl; lia).
    rewrite Hp.
    destruct (vta + Z.of_nat n =? version); cbn [fst snd];
      rewrite ?trace_emit, ?consumed_emit, ?executed_app, Hex, Hcv;
      cbn [trace emit]; rewrite !executed_app; simpl;
      rewrite ?app_nil_r; repeat split.
  - rewrite loop_cons. cbv zeta.
    assert ((vta + Z.of_nat n =? version) = false) as ->.
    { apply Z.eqb_neq. specialize (Hno 1%nat ltac:(simpl; lia)).
      simpl in Hno. unfold processed in Hno. simpl in Hno.
      rewrite Nat.add_0_r in Hno. exact Hno. }
    set (p2 := emit EvRelease
                 (acknowledge (vta + Z.of_nat n) errors
                    (emit (EvSignal BatchProcessedSignal)
                       (emit (EvExecuted (Z.of_nat n)) (emit (EvExecute cur) p))))).
    destruct (IH step2 (drop n cur) (vta + Z.of_nat n) p2) as (H1 & H2 & H3).
    { intros j Hj. specialize (Hno (S j) ltac:(simpl in *; lia)).
      rewrite firstn_cons, processed_cons in Hno. simpl in Hno.
      rewrite Nat2Z.inj_add in Hno. lia. }
    assert (executed (trace p2) = executed (trace p) ++ [cur]) as Hp2.
    { unfold p2. rewrite trace_emit, executed_app.
      destruct (acknowledge_executed (vta + Z.of_nat n) errors
                  (emit (EvSignal BatchProcessedSignal)
                     (emit (EvExecuted (Z.of_nat n)) (emit (EvExecute cur) p))))
        as [-> _].
      cbn [trace emit]. rewrite !executed_app. simpl. now rewrite !app_nil_r. }
    rewrite H1, H2, H3, Hp2, <- app_assoc.
    rewrite (processed_cons (n, errors) (step2 :: rest)). cbn [fst].
    rewrite Nat2Z.inj_add, Z.add_assoc.
    split; [| split; reflexivity].
    f_equal. cbn [length].
    rewrite <- (cons_seq (S (length rest)) 0), <- (seq_shift (S (length rest)) 0).
    cbn [map app]. rewrite map_map. f_equal. apply map_ext. intros j.
    rewrite firstn_cons, processed_cons. cbn [fst].
    now rewrite drop_drop.
Qed.

(** X18. [process_batch] sends again what the backend did not process.
    When every call of [execute_operations] returns, with counts
    [n1, n2, ...], the [j]-th call receives the batch without its first
    [n1 + ... + n(j-1)] operations; after the calls the consumed version
    is the version before the batch plus the sum of the counts; and the
    function returns exactly when that sum equals the length of the
    batch (it is still in its loop otherwise).  The backend is called
    at least once, also for an empty batch. *)
Theorem X18_process_batch_resends_rest
    (step : nat * list Exception) (steps : list (nat * list Exception))
    (batch : list Operation) (version : Z) (occurred_at : option Time) p :
  let all := step :: steps in
  (forall j, (0 < j < length all)%nat ->
     processed (take j all) <> length batch) ->
  let run := process_batch (ok_answers all) batch version occurred_at p in
  executed (trace (snd run))
  = executed (trace p)
    ++ map (fun j => drop (processed (take j all)) batch) (seq 0 (length all)) /\
  _consumed_version (snd run)
  = version - Z.of_nat (length batch) + Z.of_nat (processed all) /\
  fst run = (if (processed all =? length batch)%nat then Returned tt else Pending).
Proof.
  intros all Hno run. subst run all. unfold process_batch.
  set (p0 := match occurred_at with
             | Some _ => emit (EvSignal BatchLagSignal) p
             | None => p
             end).
  assert (executed (trace p0) = executed (trace p)) as Hp0.
  { unfold p0. destruct occurred_at; [| reflexivity].
    rewrite trace_emit, executed_app. simpl. now rewrite app_nil_r. }
  destruct (loop_progress version steps step batch
              (version - Z.of_nat (length batch)) p0) as (H1 & H2 & H3).
  { intros j Hj. specialize (Hno j Hj). lia. }
  cbv zeta. rewrite H1, H2, H3, Hp0.
  split; [reflexivity |]. split; [reflexivity |].
  destruct (Nat.eqb_spec (processed (step :: steps)) (length batch)) as [He | Hne].
  - rewrite He. now rewrite (proj2 (Z.eqb_eq _ _)) by lia.
  - now rewrite (proj2 (Z.eqb_neq _ _)) by lia.
Qed.


(** *** Per-operation errors *)

(** X19. [_handle_errors] writes one log record per reported error, in
    order, and does nothing else: an error whose text contains
    ["sys/state is read only"] gives a DEBUG record, any other an ERROR
    record carrying the error's text.  The queue, the versions, the
    backpressure threshold and the acceptance state are unchanged, so a
    reported error never stops or rewinds the batch. *)
Theorem X19_handle_errors (errors : list Exception) p :
  let p' := _handle_errors errors p in
  exists recs : list LogRecord,
    trace p' = trace p ++ map EvLog recs /\
    length recs = length errors /\
    (forall i e, errors !! i = Some e ->
       exists r, recs !! i = Some r /\
                 if contains "sys/state is read only" (str e)
                 then level r = DEBUG /\ args r = []
                 else level r = ERROR /\ args r = [ArgStr (str e)]) /\
    _queue p' = _queue p /\
    _last_version p' = _last_version p /\
    _consumed_version p' = _consumed_version p /\
    _queue_threshold p' = _queue_threshold p /\
    _operation_acceptance p' = _operation_acceptance p.
Proof.
  revert p.
  induction errors as [| error rest IH]; intros p; cbn [_handle_errors].
  - exists []. simpl. rewrite app_nil_r. repeat split. intros i e H. discriminate.
  - cbv zeta.
    destruct (contains "sys/state is read only" (str error)) eqn:Hben;
      match goal with
      | |- context [_handle_errors rest (emit (EvLog ?r) p)] =>
          destruct (IH (emit (EvLog r) p))
            as (recs & Ht & Hlen & Hrec & Hq & Hl & Hc & Hth & Ha);
          exists (r :: recs)
      end;
      (split; [rewrite Ht, trace_emit, <- app_assoc; reflexivity |]);
      (split; [simpl; now rewrite Hlen |]);
      (split; [| now repeat split]);
      (intros [| i] e He; simpl in He;
       [injection He as <-; eexists; split; [reflexivity |];
        rewrite Hben; split; reflexivity
       | exact (Hrec i e He)]).
Qed.


(** *** One operation, every backend's queue *)

Lemma enqueue_nowait_returns (op : Operation) (now : Time) obs acts p :
  fst (enqueue_operation op false now obs acts p) = Returned tt.
Proof.
  unfold enqueue_operation.
  destruct (negb (is_accepting (_operation_acceptance p))); [reflexivity |].
  unfold put. cbv beta iota zeta. reflexivity.
Qed.

Lemma enqueue_from_spec (op : Operation) (wait_ : bool)
    (meets : nat -> MultiBackendOperationProcessor.Meets Time) ps :
  forall i,
  let run := MultiBackendOperationProcessor.enqueue_from i op wait_ meets ps in
  let call j p := MultiBackendOperationProcessor.enqueue_at op wait_ meets (i + j) p in
  length (snd run) = length ps /\
  ((forall j p, ps !! j = Some p ->
      MultiBackendOperationProcessor.returns (fst (call j p)) = true) ->
   fst run = Returned tt /\
   forall j p, ps !! j = Some p -> snd run !! j = Some (snd (call j p))) /\
  (forall k p,
     ps !! k = Some p ->
     (forall j q, (j < k)%nat -> ps !! j = Some q ->
        MultiBackendOperationProcessor.returns (fst (call j q)) = true) ->
     MultiBackendOperationProcessor.returns (fst (call k p)) = false ->
     fst run = fst (call k p) /\
     snd run !! k = Some (snd (call k p)) /\
     (forall j q, (j < k)%nat -> ps !! j = Some q ->
        snd run !! j = Some (snd (call j q))) /\
     (forall j q, (k < j)%nat -> ps !! j = Some q -> snd run !! j = Some q)).
Proof.
  induction ps as [| p0 rest IH]; intros i run call; subst run.
  - simpl. split; [reflexivity |]. split.
    + intros _. split; [reflexivity |]. intros j p H. discriminate.
    + intros k p H. discriminate.
  - cbn [MultiBackendOperationProcessor.enqueue_from]. cbv zeta.
    fold (MultiBackendOperationProcessor.enqueue_at op wait_ meets i p0).
    assert (call 0%nat p0
            = MultiBackendOperationProcessor.enqueue_at op wait_ meets i p0) as Hc0.
    { unfold call. now rewrite Nat.add_0_r. }
    assert (forall j q,
              call (S j) q
              = MultiBackendOperationProcessor.enqueue_at op wait_ meets (S i + j) q)
      as HcS.
    { intros j q. unfold call. f_equal. lia. }
    specialize (IH (S i)). cbv zeta in IH.
    destruct IH as (Hlen & Hall & Hstop).
    destruct (MultiBackendOperationProcessor.enqueue_at op wait_ meets i p0)
      as [r0 p0'] eqn:E0.
    destruct (MultiBackendOperationProcessor.enqueue_from (S i) op wait_ meets rest)
      as [r rest'] eqn:Erest.
    cbn [fst snd] in *.
    destruct r0 as [[] | e | ]; cbn [fst snd length].
    + split; [now rewrite Hlen |]. split.
      * intros Hret.
        destruct Hall as [Hr Hl].
        { intros j q Hq. rewrite <- HcS. apply (Hret (S j) q Hq). }
        split; [exact Hr |].
        intros [| j] q Hq; simpl in Hq |- *.
        -- injection Hq as <-. now rewrite Hc0.
        -- rewrite HcS. now apply Hl.
      * intros [| k] q Hq Hbefore Hfail; simpl in Hq.
        -- injection Hq as <-. rewrite Hc0 in Hfail. discriminate.
        -- destruct (Hstop k q Hq) as (H1 & H2 & H3 & H4).
           { intros j q' Hj Hq'. rewrite <- HcS.
             apply (Hbefore (S j) q'); [lia | exact Hq']. }
           { now rewrite <- HcS. }
           rewrite HcS. split; [exact H1 |]. split; [exact H2 |]. split.
           ++ intros [| j] q' Hj Hq'; simpl in Hq' |- *.
              ** injection Hq' as <-. now rewrite Hc0.
              ** rewrite HcS. apply H3; [lia | exact Hq'].
           ++ intros [| j] q' Hj Hq'; [lia |]. simpl in Hq' |- *.
              apply H4; [lia | exact Hq'].
    + split; [reflexivity |]. split.
      * intros Hret. specialize (Hret 0%nat p0 eq_refl).
        rewrite Hc0 in Hret. discriminate.
      * intros [| k] q Hq Hbefore Hfail; simpl in Hq.
        -- injection Hq as <-. rewrite Hc0. cbn [fst snd].
           split; [reflexivity |]. split; [reflexivity |]. split.
           ++ intros j q' Hj. lia.
           ++ intros [| j] q' Hj Hq'; [lia |]. exact Hq'.
        -- specialize (Hbefore 0%nat p0 ltac:(lia) eq_refl).
           rewrite Hc0 in Hbefore. discriminate.
    + split; [reflexivity |]. split.
      * intros Hret. specialize (Hret 0%nat p0 eq_refl).
        rewrite Hc0 in Hret. discriminate.
      * intros [| k] q Hq Hbefore Hfail; simpl in Hq.
        -- injection Hq as <-. rewrite Hc0. cbn [fst snd].
           split; [reflexivity |]. split; [reflexivity |]. split.
           ++ intros j q' Hj. lia.
           ++ intros [| j] q' Hj Hq'; [lia |]. exact Hq'.
        -- specialize (Hbefore 0%nat p0 ltac:(lia) eq_refl).
           rewrite Hc0 in Hbefore. discriminate.
Qed.


(** X23. Without [wait], [MultiBackendOperationProcessor.enqueue_operation]
    hands the operation to every per-backend processor, in order, and
    returns: each processor is left as its own [enqueue_operation]
    leaves it, so an accepting processor has put the operation on its
    queue exactly once and a closed one has only warned. *)
Theorem X23_enqueue_reaches_every_processor (op : Operation)
    (meets : nat -> MultiBackendOperationProcessor.Meets Time)
    (ps : list (Processor Operation Time)) :
  let run := MultiBackendOperationProcessor.enqueue_operation op false meets ps in
  fst run = Returned tt /\
  length (snd run) = length ps /\
  forall i p, ps !! i = Some p ->
    exists p',
      snd run !! i = Some p' /\
      p' = snd (MultiBackendOperationProcessor.enqueue_at op false meets i p) /\
      (is_accepting (_operation_acceptance p) = true ->
       entries (_queue p')
       = entries (_queue p)
         ++ [{| obj := op; ver := last_put (_queue p) + 1;
                at_ := MultiBackendOperationProcessor.now (meets i) |}] /\
       _last_version p' = last_put (_queue p) + 1) /\
      (is_accepting (_operation_acceptance p) = false ->
       _queue p' = _queue p /\ _last_version p' = _last_version p).
Proof.
  intros run. subst run. unfold MultiBackendOperationProcessor.enqueue_operation.
  destruct (enqueue_from_spec op false meets ps 0) as (Hlen & Hall & _).
  destruct Hall as [Hr Hl].
  { intros j p _. unfold MultiBackendOperationProcessor.enqueue_at.
    now rewrite enqueue_nowait_returns. }
  split; [exact Hr |]. split; [exact Hlen |].
  intros i p Hp. eexists. split; [exact (Hl i p Hp) |].
  split; [reflexivity |].
  unfold MultiBackendOperationProcessor.enqueue_at, enqueue_operation.
  split.
  - intros Hacc. rewrite Hacc. cbn [negb]. unfold put. cbv beta iota zeta.
    unfold _check_queue_backpressure.
    destruct (_ <? _); destruct (_check_queue_size _); split; reflexivity.
  - intros Hacc. rewrite Hacc. cbn [negb fst snd]. unfold warn_once.
    destruct (existsb _ _); split; reflexivity.
Qed.

(** X24. The loop over the processors stops at the first processor
    whose [enqueue_operation] does not return (with [wait=True]: its
    consumer is not running, or the wait does not end).  The outcome is
    that processor's; the processors before it have taken the
    operation, and the processors after it are left untouched: the
    operation never reaches their queues. *)
Theorem X24_enqueue_stops_at_first_failure (op : Operation) (wait_ : bool)
    (meets : nat -> MultiBackendOperationProcessor.Meets Time)
    (ps : list (Processor Operation Time)) (k : nat) (p : Processor Operation Time) :
  ps !! k = Some p ->
  (forall j q, (j < k)%nat -> ps !! j = Some q ->
     MultiBackendOperationProcessor.returns
       (fst (MultiBackendOperationProcessor.enqueue_at op wait_ meets j q)) = true) ->
  MultiBackendOperationProcessor.returns
    (fst (MultiBackendOperationProcessor.enqueue_at op wait_ meets k p)) = false ->
  let run := MultiBackendOperationProcessor.enqueue_operation op wait_ meets ps in
  fst run = fst (MultiBackendOperationProcessor.enqueue_at op wait_ meets k p) /\
  snd run !! k
  = Some (snd (MultiBackendOperationProcessor.enqueue_at op wait_ meets k p)) /\
  (forall j q, (j < k)%nat -> ps !! j = Some q ->
     snd run !! j
     = Some (snd (MultiBackendOperationProcessor.enqueue_at op wait_ meets j q))) /\
  (forall j q, (k < j)%nat -> ps !! j = Some q -> snd run !! j = Some q).
Proof.
  intros Hp Hbefore Hfail run. subst run.
  unfold MultiBackendOperationProcessor.enqueue_operation.
  destruct (enqueue_from_spec op wait_ meets ps 0) as (_ & _ & Hstop).
  exact (Hstop k p Hp Hbefore Hfail).
Qed.


End ProcessorFurther.

(** * The further properties on the scenarios *)

Section DispatcherScenarios.
Import Health Dispatcher HealthCheck Scenario.

Lemma two_distinct : distinct_indices two.
Proof. apply init_distinct. Qed.

Lemma first_degraded_distinct : distinct_indices first_degraded.
Proof.
  unfold distinct_indices. simpl.
  repeat constructor; simpl; intuition discriminate.
Qed.

(** X1 on scenario B: index 1 is first found at position 1. *)
Lemma X1_find_state_position_witness :
  first_position (_backend_states two) 1 1.
Proof.
  apply (proj1 (proj1 (X1_find_state_position two 1) 1%nat)). reflexivity.
Defined.

(** X2 on scenario B: a failure of backend 1. *)
Lemma X2_transition_touches_one_slot_witness :
  _backend_states two !! 1%nat = Some second_state /\
  _backend_states (snd (_transition_on_failure 1 down two)) !! 1%nat
  = Some (if decide (_find_state_position two 1 = Some 1%nat)
          then with_health (compute_failure_health (health second_state) down)
                           second_state
          else second_state).
Proof.
  split; [reflexivity |].
  exact (proj1 (proj2 (X2_transition_touches_one_slot two 1))
           down 1%nat second_state eq_refl).
Defined.

(** X3 on scenario B: backend 1 is marked disconnected. *)
Lemma X3_mark_backend_disconnected_witness :
  _backend_states two !! 1%nat = Some second_state /\
  _backend_states (snd (mark_backend_disconnected 1 None two)) !! 1%nat
  = Some (if decide (_find_state_position two 1 = Some 1%nat)
          then with_health
                 (Degraded 3 (GenericError "Exception" "Connection lost"))
                 second_state
          else second_state).
Proof.
  split; [reflexivity |].
  exact (proj2 (proj2 (proj2 (X3_mark_backend_disconnected two 1 None)))
           1%nat second_state eq_refl).
Defined.

(** X4 on scenario B. *)
Lemma X4_execute_operations_health_witness :
  is_open two /\ distinct_indices two /\
  _backend_states (snd (execute_operations only_b0_writes clock reversed two))
  = advanced only_b0_writes clock (map index (_get_routable_backends two))
             (_backend_states two).
Proof.
  assert (is_open two) as Hopen by (split; reflexivity).
  split; [exact Hopen |]. split; [exact two_distinct |].
  exact (X4_execute_operations_health only_b0_writes clock reversed two
           Hopen reversed_perm two_distinct).
Defined.

(** X5 on scenario B: backend 0 raises, backend 1 answers. *)
Lemma X5_read_first_success_witness :
  _shutdown_event two = false /\
  _get_routable_backends two = [first_state] ++ second_state :: [] /\
  Forall (fails only_b0_fails) [first_state] /\
  only_b0_fails (backend second_state) = Ok "value" /\
  fst (read_operation only_b0_fails clock two) = Ok "value".
Proof.
  assert (Forall (fails only_b0_fails) [first_state]) as Hall
      by (constructor; [reflexivity | constructor]).
  split; [reflexivity |]. split; [reflexivity |]. split; [exact Hall |].
  split; [reflexivity |].
  exact (proj1 (X5_read_first_success only_b0_fails clock two
                  [first_state] second_state [] "value"
                  eq_refl eq_refl Hall eq_refl)).
Defined.

(** X7 on scenario C: only backend 0 creates the model. *)
Lemma X7_create_model_lowest_index_witness :
  is_open three /\
  exists s r,
    In s (within_deadline None (reversed (_backend_states three))) /\
    creates_model (backend s) = Ok r /\
    fst (create_on_all CallCreateModel creates_model clock reversed None three)
    = Ok r.
Proof.
  assert (is_open three) as Hopen by (split; reflexivity).
  split; [exact Hopen |].
  destruct (proj1 (X7_create_model_lowest_index CallCreateModel creates_model
                     clock reversed None three Hopen))
    as (s & r & Hs & Hr & Hrun & _).
  { exists first_state. split; [| reflexivity]. simpl. auto. }
  exists s, r. auto.
Defined.

(** X8 on the dispatcher with a degraded first backend. *)
Lemma X8_check_degraded_backends_witness :
  _shutdown_event first_degraded = false /\
  pinged (_check_degraded_backends pings clock first_degraded) = [b0] /\
  rescheduled (_check_degraded_backends pings clock first_degraded) = true.
Proof.
  split; [reflexivity |].
  destruct (proj2 (X8_check_degraded_backends pings clock first_degraded) eq_refl)
    as (Hp & Hr & _).
  split; [exact Hp | exact Hr].
Defined.

(** X9 on scenario B: the second processor ended with backoff 4. *)
Lemma X9_update_multi_backend_health_witness :
  length [0; 4] = length (_backend_states two) /\
  distinct_indices two /\
  fst (_update_multi_backend_health [0; 4] (map index (_backend_states two)) two)
  = Ok tt.
Proof.
  split; [reflexivity |]. split; [exact two_distinct |].
  exact (proj1 (X9_update_multi_backend_health [0; 4] two eq_refl two_distinct)).
Defined.



(** X20 on scenario B: backend 1 raises three times. *)
Lemma X20_three_failed_writes_degrade_witness :
  is_open two /\ distinct_indices two /\
  In second_state (_backend_states two) /\
  only_b0_writes (backend second_state) = Raise down /\
  In (with_health (Degraded 3 down) second_state)
     (_backend_states
        (snd (execute_operations only_b0_writes clock reversed
           (snd (execute_operations only_b0_writes clock reversed
              (snd (execute_operations only_b0_writes clock reversed two))))))).
Proof.
  assert (is_open two) as Hopen by (split; reflexivity).
  assert (In second_state (_backend_states two)) as Hin by (simpl; auto).
  split; [exact Hopen |]. split; [exact two_distinct |]. split; [exact Hin |].
  split; [reflexivity |].
  exact (proj1 (proj2 (X20_three_failed_writes_degrade
                         only_b0_writes only_b0_writes only_b0_writes
                         clock reversed two second_state 0 down down down
                         Hopen two_distinct reversed_perm Hin
                         eq_refl eq_refl eq_refl eq_refl))).
Defined.

(** X21 on the dispatcher with a degraded first backend. *)
Lemma X21_recovered_backend_is_routable_witness :
  _shutdown_event first_degraded = false /\
  distinct_indices first_degraded /\
  In degraded_state (_backend_states first_degraded) /\
  In (with_health (Healthy (clock 0)) degraded_state)
     (_get_routable_backends
        (after_check (_check_degraded_backends pings clock first_degraded))).
Proof.
  assert (In degraded_state (_backend_states first_degraded)) as Hin
      by (simpl; auto).
  split; [reflexivity |]. split; [exact first_degraded_distinct |].
  split; [exact Hin |].
  exact (X21_recovered_backend_is_routable pings clock first_degraded
           degraded_state eq_refl first_degraded_distinct Hin eq_refl eq_refl).
Defined.

(** X22 on scenario B: the URL of backend 0 comes first. *)
Lemma X22_get_run_url_witness :
  fst (get_run_url url_of two) = Ok "https://a.example:443/run" /\
  exists others,
    fst (get_all_run_urls url_of two) = Ok ("https://a.example:443/run" :: others).
Proof.
  split; [reflexivity |].
  exact (proj2 (proj2 (proj2 (X22_get_run_url url_of two)))
           "https://a.example:443/run" eq_refl).
Defined.

End DispatcherScenarios.

Section WorkerScenarios.
Import Daemon Daemon.ConnectionRetryWrapper AsyncOperationProcessor
       ConsumerThread Scenario.

(** X12: [resume] and [run] after [interrupt] do not restart the worker. *)
Lemma X12_daemon_terminal_states_witness :
  is_terminal INTERRUPTED = true /\
  is_running (after [DoResume; RunStart] INTERRUPTED) = false.
Proof.
  split; [reflexivity |].
  exact (proj2 (proj1 (X12_daemon_terminal_states [DoResume; RunStart] INTERRUPTED)
                  eq_refl)).
Defined.

(** X13 on eight connection losses. *)
Lemma X13_retry_backoff_bounds_witness :
  0 <= last_backoff_time consumer <= MAX_RETRY_BACKOFF /\
  0 <= last_backoff_time
         (snd (wrapper "kill" (map (@lost unit) eight_losses) consumer))
    <= MAX_RETRY_BACKOFF.
Proof.
  assert (0 <= last_backoff_time consumer <= MAX_RETRY_BACKOFF) as Hb
      by (vm_compute; split; discriminate).
  split; [exact Hb |].
  exact (proj1 (X13_retry_backoff_bounds "kill" (map (@lost unit) eight_losses)
                  consumer Hb)).
Defined.


(** X15 on a loss interrupted during its wait. *)
Lemma X15_interrupt_stops_retrying_witness :
  interrupted_in_call interrupted_round || interrupted_in_wait interrupted_round
  = true /\
  wrapper "kill" (interrupted_round :: recovering) consumer
  = wrapper "kill" (interrupted_round :: []) consumer.
Proof.
  split; [reflexivity |].
  exact (proj1 (X15_interrupt_stops_retrying "kill" interrupted_round
                  recovering [] consumer eq_refl)).
Defined.

(** X16 on a queue of three operations: no backpressure. *)
Lemma X16_check_queue_backpressure_witness :
  size (_queue processor) / QUEUE_BACKPRESSURE_THRESHOLD
  <= _queue_threshold processor /\
  _check_queue_backpressure processor = processor.
Proof.
  assert (size (_queue processor) / QUEUE_BACKPRESSURE_THRESHOLD
          <= _queue_threshold processor) as H by (vm_compute; discriminate).
  split; [exact H |].
  exact (proj1 (proj2 (X16_check_queue_backpressure processor)) H).
Defined.

(** X17 on the same queue: nothing to lift. *)
Lemma X17_check_queue_backpressure_lifted_witness :
  negb (_queue_threshold processor =? 0)
  && (size (_queue processor) <? QUEUE_BACKPRESSURE_THRESHOLD) = false /\
  _check_queue_backpressure_lifted processor = processor.
Proof.
  split; [reflexivity |].
  exact (proj1 (X17_check_queue_backpressure_lifted processor) eq_refl).
Defined.

(** X18 on a batch of three processed in two calls. *)
Lemma X18_process_batch_resends_rest_witness :
  (forall j, (0 < j < length ((1%nat, []) :: one_then_two))%nat ->
     processed (take j ((1%nat, []) :: one_then_two)) <> length ["A"; "B"; "C"]) /\
  executed (trace (snd (process_batch (ok_answers ((1%nat, []) :: one_then_two))
                          ["A"; "B"; "C"] 3 None processor)))
  = executed (trace processor) ++ [["A"; "B"; "C"]; ["B"; "C"]].
Proof.
  assert (forall j, (0 < j < length ((1%nat, []) :: one_then_two))%nat ->
            processed (take j ((1%nat, []) :: one_then_two))
            <> length ["A"; "B"; "C"]) as Hno.
  { intros j Hj. simpl in Hj. assert (j = 1%nat) as -> by lia.
    vm_compute. discriminate. }
  split; [exact Hno |].
  exact (proj1 (X18_process_batch_resends_rest (1%nat, []) one_then_two
                  ["A"; "B"; "C"] 3 None processor Hno)).
Defined.

(** X23 on one processor. *)
Lemma X23_enqueue_reaches_every_processor_witness :
  fst (MultiBackendOperationProcessor.enqueue_operation
         "D" false sees_stopped [processor]) = Returned tt.
Proof.
  exact (proj1 (X23_enqueue_reaches_every_processor "D" sees_stopped [processor])).
Defined.

(** X24: the first processor's consumer has stopped, the second
    processor never sees the operation. *)
Lemma X24_enqueue_stops_at_first_failure_witness :
  [stopped; processor] !! 0%nat = Some stopped /\
  MultiBackendOperationProcessor.returns
    (fst (MultiBackendOperationProcessor.enqueue_at "D" true sees_stopped 0 stopped))
  = false /\
  snd (MultiBackendOperationProcessor.enqueue_operation
         "D" true sees_stopped [stopped; processor]) !! 1%nat
  = Some processor.
Proof.
  split; [reflexivity |]. split; [reflexivity |].
  refine (proj2 (proj2 (proj2 (X24_enqueue_stops_at_first_failure
                                 "D" true sees_stopped [stopped; processor]
                                 0%nat stopped eq_refl _ eq_refl)))
            1%nat processor _ eq_refl); intros; lia.
Defined.

End WorkerScenarios.
